(** * hex2boot: boot-record encoder of [hex2boot.py]

    A shallow embedding of [hex2boot.py] (the CRC-16 routine, the
    [struct]-based record constructors, the flash maps, the image and
    range-erase translators and the session driver), followed by the
    properties of the encoder stated against it.

    Conventions.
    - Python integers are [Z]; the bit operators [<<], [>>], [&], [^] are
      [Z.shiftl], [Z.shiftr], [Z.land], [Z.lxor].
    - [bytes] / [bytearray] / [array('B')] values are [list byte]: every
      element is in 0..255 by type, as it is in Python.
    - The [dict]s of the program ([regions], the buffer of an [IntelHex]
      object) are [gmap]s.
    - Code that can raise returns [option] when it is pure ([struct.pack]),
      and runs in the monad [M] (sink and object heap threaded, an outcome
      that is either a value or a raised exception) when it writes to the
      output file or touches [IntelHex] objects. *)

From Stdlib Require Import ZArith Lia List.
From Stdlib Require Import Strings.Byte.
From stdpp Require Import gmap strings list sorting.

Local Open Scope Z_scope.

Abbreviation bytes := (list byte).

(** The integer value of a byte, as iterating over a [bytearray] yields it. *)
Definition byte_val (b : byte) : Z := Z.of_N (Byte.to_N b).

(** The byte holding an integer of 0..255 ([x00] is never produced for a
    value in range other than 0; callers check the range first). *)
Definition byte_of_Z (v : Z) : byte :=
  match Byte.of_N (Z.to_N v) with Some b => b | None => x00 end.

#[global] Instance byte_eq_decision : EqDecision byte := Byte.byte_eq_dec.

(** ** Checksum: [crc16] *)

Definition _CRC16_XMODEM_TABLE : list Z :=
  [
     0x0000; 0x1021; 0x2042; 0x3063; 0x4084; 0x50a5; 0x60c6; 0x70e7;
     0x8108; 0x9129; 0xa14a; 0xb16b; 0xc18c; 0xd1ad; 0xe1ce; 0xf1ef;
     0x1231; 0x0210; 0x3273; 0x2252; 0x52b5; 0x4294; 0x72f7; 0x62d6;
     0x9339; 0x8318; 0xb37b; 0xa35a; 0xd3bd; 0xc39c; 0xf3ff; 0xe3de;
     0x2462; 0x3443; 0x0420; 0x1401; 0x64e6; 0x74c7; 0x44a4; 0x5485;
     0xa56a; 0xb54b; 0x8528; 0x9509; 0xe5ee; 0xf5cf; 0xc5ac; 0xd58d;
     0x3653; 0x2672; 0x1611; 0x0630; 0x76d7; 0x66f6; 0x5695; 0x46b4;
     0xb75b; 0xa77a; 0x9719; 0x8738; 0xf7df; 0xe7fe; 0xd79d; 0xc7bc;
     0x48c4; 0x58e5; 0x6886; 0x78a7; 0x0840; 0x1861; 0x2802; 0x3823;
     0xc9cc; 0xd9ed; 0xe98e; 0xf9af; 0x8948; 0x9969; 0xa90a; 0xb92b;
     0x5af5; 0x4ad4; 0x7ab7; 0x6a96; 0x1a71; 0x0a50; 0x3a33; 0x2a12;
     0xdbfd; 0xcbdc; 0xfbbf; 0xeb9e; 0x9b79; 0x8b58; 0xbb3b; 0xab1a;
     0x6ca6; 0x7c87; 0x4ce4; 0x5cc5; 0x2c22; 0x3c03; 0x0c60; 0x1c41;
     0xedae; 0xfd8f; 0xcdec; 0xddcd; 0xad2a; 0xbd0b; 0x8d68; 0x9d49;
     0x7e97; 0x6eb6; 0x5ed5; 0x4ef4; 0x3e13; 0x2e32; 0x1e51; 0x0e70;
     0xff9f; 0xefbe; 0xdfdd; 0xcffc; 0xbf1b; 0xaf3a; 0x9f59; 0x8f78;
     0x9188; 0x81a9; 0xb1ca; 0xa1eb; 0xd10c; 0xc12d; 0xf14e; 0xe16f;
     0x1080; 0x00a1; 0x30c2; 0x20e3; 0x5004; 0x4025; 0x7046; 0x6067;
     0x83b9; 0x9398; 0xa3fb; 0xb3da; 0xc33d; 0xd31c; 0xe37f; 0xf35e;
     0x02b1; 0x1290; 0x22f3; 0x32d2; 0x4235; 0x5214; 0x6277; 0x7256;
     0xb5ea; 0xa5cb; 0x95a8; 0x8589; 0xf56e; 0xe54f; 0xd52c; 0xc50d;
     0x34e2; 0x24c3; 0x14a0; 0x0481; 0x7466; 0x6447; 0x5424; 0x4405;
     0xa7db; 0xb7fa; 0x8799; 0x97b8; 0xe75f; 0xf77e; 0xc71d; 0xd73c;
     0x26d3; 0x36f2; 0x0691; 0x16b0; 0x6657; 0x7676; 0x4615; 0x5634;
     0xd94c; 0xc96d; 0xf90e; 0xe92f; 0x99c8; 0x89e9; 0xb98a; 0xa9ab;
     0x5844; 0x4865; 0x7806; 0x6827; 0x18c0; 0x08e1; 0x3882; 0x28a3;
     0xcb7d; 0xdb5c; 0xeb3f; 0xfb1e; 0x8bf9; 0x9bd8; 0xabbb; 0xbb9a;
     0x4a75; 0x5a54; 0x6a37; 0x7a16; 0x0af1; 0x1ad0; 0x2ab3; 0x3a92;
     0xfd2e; 0xed0f; 0xdd6c; 0xcd4d; 0xbdaa; 0xad8b; 0x9de8; 0x8dc9;
     0x7c26; 0x6c07; 0x5c64; 0x4c45; 0x3ca2; 0x2c83; 0x1ce0; 0x0cc1;
     0xef1f; 0xff3e; 0xcf5d; 0xdf7c; 0xaf9b; 0xbfba; 0x8fd9; 0x9ff8;
     0x6e17; 0x7e36; 0x4e55; 0x5e74; 0x2e93; 0x3eb2; 0x0ed1; 0x1ef0
  ].

(** [table[i]]; the index is always in 0..255 at the call site below, the
    default of [nth] is not reached with the 256-entry table. *)
Definition table_get (table : list Z) (i : Z) : Z := nth (Z.to_nat i) table 0.

(** The loop body of [crc16]:
    [crc = ((crc<<8) & 0xff00) ^ table[((crc>>8) & 0xff) ^ byte]]. *)
Definition crc16_update (table : list Z) (crc : Z) (b : byte) : Z :=
  Z.lxor (Z.land (Z.shiftl crc 8) 0xff00)
         (table_get table (Z.lxor (Z.land (Z.shiftr crc 8) 0xff) (byte_val b))).

(** [crc16(data, crc, table)]: the loop over the bytes, then [crc & 0xffff]. *)
Definition crc16_with (table : list Z) (data : bytes) (crc : Z) : Z :=
  Z.land (fold_left (crc16_update table) data crc) 0xffff.

(** [crc16(data, crc)] with the default table. *)
Definition crc16 (data : bytes) (crc : Z) : Z :=
  crc16_with _CRC16_XMODEM_TABLE data crc.

(** *** Reference: CRC-16/XMODEM, bit by bit

    The definition of the checksum as the specification words it:
    polynomial 0x1021 over a 16-bit register, the initial value given by
    the caller, each byte entered most significant bit first (xor-ed into
    the high byte, then eight shift-and-reduce steps), no reflection of
    input or output, no final xor. *)
Module XModem.

Definition poly : Z := 0x1021.

Definition shift_reduce (reg : Z) : Z :=
  let shifted := Z.land (Z.shiftl reg 1) 0xffff in
  if Z.testbit reg 15 then Z.lxor shifted poly else shifted.

Definition feed_byte (reg : Z) (b : byte) : Z :=
  Nat.iter 8 shift_reduce (Z.lxor reg (Z.shiftl (byte_val b) 8)).

Definition checksum (data : bytes) (init : Z) : Z :=
  fold_left feed_byte data init.

End XModem.

(** ** Record encoder: [struct.Struct] and the [bin_*] constructors *)

(** The format characters used by the program (all formats are ['>'],
    big-endian, no padding). *)
Inductive fmt_char := fmt_c | fmt_B | fmt_H.

(** The values handed to [pack]: a [bytes] object or an integer. *)
Inductive pyval := PyBytes (b : bytes) | PyInt (v : Z).

(** Packing of one field; [None] is [struct.error]: ['c'] wants a bytes
    object of length 1, ['B'] an integer of 0..255, ['H'] an integer of
    0..65535, written high byte first. *)
Definition pack_field (f : fmt_char) (v : pyval) : option bytes :=
  match f, v with
  | fmt_c, PyBytes [b] => Some [b]
  | fmt_B, PyInt n =>
      if bool_decide (0 <= n <= 0xff) then Some [byte_of_Z n] else None
  | fmt_H, PyInt n =>
      if bool_decide (0 <= n <= 0xffff)
      then Some [byte_of_Z (Z.shiftr n 8); byte_of_Z (Z.land n 0xff)]
      else None
  | _, _ => None
  end.

(** [Struct(fmt).pack] on its argument list; a wrong number of arguments is
    [struct.error] too. *)
Fixpoint struct_pack (fmt : list fmt_char) (args : list pyval) : option bytes :=
  match fmt, args with
  | [], [] => Some []
  | f :: fmt', v :: args' =>
      match pack_field f v, struct_pack fmt' args' with
      | Some b, Some rest => Some (b ++ rest)
      | _, _ => None
      end
  | _, _ => None
  end.

Definition FSB : bytes := [x24].
Definition S_IDENT  : list fmt_char := [fmt_c; fmt_B; fmt_B; fmt_H].
Definition S_SETUP  : list fmt_char := [fmt_c; fmt_B; fmt_B; fmt_H; fmt_B].
Definition S_ERASE  : list fmt_char := [fmt_c; fmt_B; fmt_B; fmt_H].
Definition S_WRITE  : list fmt_char := [fmt_c; fmt_B; fmt_B; fmt_H].
Definition S_VERIFY : list fmt_char := [fmt_c; fmt_B; fmt_B; fmt_H; fmt_H; fmt_H].
Definition S_LOCK   : list fmt_char := [fmt_c; fmt_B; fmt_B; fmt_H].
Definition S_RUNAPP : list fmt_char := [fmt_c; fmt_B; fmt_B; fmt_H].

(** [len(data)] *)
Definition len (data : bytes) : Z := Z.of_nat (length data).

(** [pack(...) + data] *)
Definition pack_then (hdr : option bytes) (data : bytes) : option bytes :=
  match hdr with Some h => Some (h ++ data) | None => None end.

Definition bin_ident (blid : Z) : option bytes :=
  struct_pack S_IDENT [PyBytes FSB; PyInt 3; PyInt 0x30; PyInt blid].

(** [bin_setup(bank, keys=0xA5F1)]; the default is [keys_default]. *)
Definition keys_default : Z := 0xA5F1.
Definition bin_setup (bank : Z) (keys : Z) : option bytes :=
  struct_pack S_SETUP [PyBytes FSB; PyInt 4; PyInt 0x31; PyInt keys; PyInt bank].

(** [bin_erase(addr, data=b'')]; the default is [[]]. *)
Definition bin_erase (addr : Z) (data : bytes) : option bytes :=
  pack_then
    (struct_pack S_ERASE [PyBytes FSB; PyInt (3 + len data); PyInt 0x32; PyInt addr])
    data.

Definition bin_write (addr : Z) (data : bytes) : option bytes :=
  pack_then
    (struct_pack S_WRITE [PyBytes FSB; PyInt (3 + len data); PyInt 0x33; PyInt addr])
    data.

Definition bin_verify (org end_ crc : Z) : option bytes :=
  struct_pack S_VERIFY
    [PyBytes FSB; PyInt 7; PyInt 0x34; PyInt org; PyInt end_; PyInt crc].

Definition bin_lock (lock : Z) : option bytes :=
  struct_pack S_LOCK [PyBytes FSB; PyInt 3; PyInt 0x35; PyInt lock].

(** [bin_runapp(option=0)]; the default is [0]. *)
Definition bin_runapp (option_ : Z) : option bytes :=
  struct_pack S_RUNAPP [PyBytes FSB; PyInt 3; PyInt 0x36; PyInt option_].


(** ** Flash maps: [regions] and [get_regions] *)

(** A region is the list [[start, stop, page]] of the source. *)
Abbreviation region := (Z * Z * Z)%type.

(** The [dict] literal of [regions]. *)
Definition regions_table : gmap string (list region) :=
  list_to_map
    [ ("bb2"%string,  [ (0x0000, 0x3DFF, 512); (0xF800, 0xFBBF, 64) ]);
      ("bb50"%string, [ (0x0000, 0x37FF, 2048) ]);
      ("bb51"%string, [ (0x0000, 0x37FF, 2048) ]);
      ("bb52"%string, [ (0x0000, 0x77FF, 2048) ]);
      ("sb2"%string,  [ (0x0000, 0xF7FF, 1024) ]);
      ("ub1"%string,  [ (0x0000, 0x3DFF, 512); (0xF800, 0xFBBF, 64) ]) ].

(** The second argument of [.get(type, ...)]. *)
Definition regions_default : list region := [ (0x0000, 0xFBFF, 512) ].

(** [regions(type)]; [type] is [args.map], a string or [None] (no key of
    the dict is [None], so [None] gets the default). *)
Definition regions (type : option string) : list region :=
  match type with
  | Some name => default regions_default (regions_table !! name)
  | None => regions_default
  end.

(** The generator [get_regions], as the list of what it yields, in order. *)
Fixpoint get_regions_of (org top : Z) (rs : list region) : list region :=
  match rs with
  | [] => []
  | (start, stop, page) :: rs' =>
      if bool_decide (Z.max org start < Z.min top stop)
      then (Z.max org start, Z.min top stop, page) :: get_regions_of org top rs'
      else get_regions_of org top rs'
  end.

Definition get_regions (org top : Z) (type : option string) : list region :=
  get_regions_of org top (regions type).

(** ** Python helpers *)

(** [range(start, stop, step)] for [step <> 0]. ([range] raises
    [ValueError] for [step = 0]; both callers divide by the page size
    first, which raises [ZeroDivisionError] before the range is built, so
    that case is given the empty list here.) *)
Definition py_range (start stop step : Z) : list Z :=
  let count :=
    if bool_decide (0 < step) then (stop - start + step - 1) / step
    else if bool_decide (step < 0) then (start - stop - step - 1) / (- step)
    else 0 in
  (fun i : nat => start + Z.of_nat i * step) <$> seq 0 (Z.to_nat count).

(** [a or b] on integers: [b] when [a] is 0. *)
Definition py_or (a b : Z) : Z := if bool_decide (a = 0) then b else a.

(** ** The effects: output file and [IntelHex] objects *)

(** An [intelhex.IntelHex] object: its buffer [_buf], a [dict] from address
    to byte value, and its [padding] byte. The library (not part of this
    repository) keeps addresses non-negative: loading a file or a dict
    rejects a negative address, and so does item assignment. *)
Record IntelHex := mkIntelHex { buf : gmap Z byte; padding : byte }.

Definition IntelHex_wf (o : IntelHex) : Prop :=
  forall addr, is_Some (buf o !! addr) -> 0 <= addr.

(** Object references. *)
Abbreviation loc := positive.

(** The state a session runs in: what has been written to the output file
    [brec], and the objects alive, by reference. *)
Record state := mkState { brec : bytes; heap : gmap loc IntelHex }.

Inductive exn :=
  | struct_error | ZeroDivisionError | ValueError | TypeError | ReferenceError.

Inductive outcome (A : Type) :=
  | Ok (a : A)
  | Raise (e : exn).
Arguments Ok {A} a.
Arguments Raise {A} e.

(** A statement: from a state to an outcome and the state it leaves. After
    [Raise] the state is the one at the point of the exception. *)
Definition M (A : Type) : Type := state -> outcome A * state.

Definition ret {A} (a : A) : M A := fun s => (Ok a, s).

Definition bind {A B} (m : M A) (k : A -> M B) : M B :=
  fun s => match m s with
           | (Ok a, s') => k a s'
           | (Raise e, s') => (Raise e, s')
           end.

Definition raise {A} (e : exn) : M A := fun s => (Raise e, s).

Notation "x <- m ;; k" := (bind m (fun x => k))
  (at level 100, m at next level, right associativity,
   format "'[v' x  <-  m  ;; '/' k ']'").
Notation "m ;;; k" := (bind m (fun _ => k))
  (at level 100, right associativity, format "'[v' m  ;;; '/' k ']'").

(** [for x in l: body(x)] *)
Fixpoint for_each {A} (l : list A) (body : A -> M unit) : M unit :=
  match l with
  | [] => ret tt
  | x :: l' => body x ;;; for_each l' body
  end.

(** [for x in l: acc = body(acc, x)], for a loop that carries a local. *)
Fixpoint for_fold {A S} (l : list A) (acc : S) (body : S -> A -> M S) : M S :=
  match l with
  | [] => ret acc
  | x :: l' => acc' <- body acc x ;; for_fold l' acc' body
  end.

(** [brec.write(b)] where [b] comes from a record constructor: the
    argument is evaluated first, and [struct.error] leaves the file as it
    was. *)
Definition brec_write (b : option bytes) : M unit :=
  fun s => match b with
           | Some b => (Ok tt, mkState (brec s ++ b) (heap s))
           | None => (Raise struct_error, s)
           end.

(** [int(a / b)]: the quotient, truncated; [ZeroDivisionError] for
    [b = 0]. (On the non-negative 16-bit addresses of the program the
    floating-point quotient of Python 3 truncates to the exact integer
    quotient, which is also what Python 2's [/] gives.) *)
Definition int_div (a b : Z) : M Z :=
  if bool_decide (b = 0) then raise ZeroDivisionError else ret (Z.quot a b).

(** *** The [IntelHex] methods the program calls *)

Definition deref (l : loc) : M IntelHex :=
  fun s => match heap s !! l with
           | Some o => (Ok o, s)
           | None => (Raise ReferenceError, s)
           end.

(** A new object: its reference is one no live object has. *)
Definition alloc (o : IntelHex) : M loc :=
  fun s => let l := fresh (dom (heap s)) in
           (Ok l, mkState (brec s) (<[l := o]> (heap s))).

Definition store (l : loc) (o : IntelHex) : M unit :=
  fun s => (Ok tt, mkState (brec s) (<[l := o]> (heap s))).

(** [IntelHex(source)]: a new object with its own buffer, filled from
    [source]. The source (the hex file, or a dict or [IntelHex] object a
    caller of [hex2boot] passes in [args.hexfile]) is the object at
    [source], read and never written; its padding is [0xFF] unless it is
    an [IntelHex] object with another one. *)
Definition IntelHex_init (source : loc) : M loc :=
  o <- deref source ;;
  alloc (mkIntelHex (buf o) (padding o)).

(** [IntelHex()] *)
Definition IntelHex_empty : IntelHex := mkIntelHex ∅ xff.

(** [ih[addr]] for an integer: [self._buf.get(addr, self.padding)]. *)
Definition getitem (ih : loc) (addr : Z) : M byte :=
  o <- deref ih ;;
  if bool_decide (addr < 0) then raise TypeError
  else ret (default (padding o) (buf o !! addr)).

(** [ih[addr] = b]: in place, on the object [ih] refers to. *)
Definition setitem (ih : loc) (addr : Z) (b : byte) : M unit :=
  o <- deref ih ;;
  if bool_decide (addr < 0) then raise TypeError
  else store ih (mkIntelHex (<[addr := b]> (buf o)) (padding o)).

(** The sorted keys of the buffer. *)
Definition sorted_keys (m : gmap Z byte) : list Z :=
  merge_sort Z.le (map_to_list m).*1.

(** [ih.addresses()] *)
Definition addresses (ih : loc) : M (list Z) :=
  o <- deref ih ;; ret (sorted_keys (buf o)).

(** The body of the loop of a slice: [x = self._buf.get(i)], and
    [ih[i] = x] when [x] is not [None]. *)
Definition copy_populated (o : IntelHex) (ih : IntelHex) (i : Z) : IntelHex :=
  match buf o !! i with
  | Some x => mkIntelHex (<[i := x]> (buf ih)) (padding ih)
  | None => ih
  end.

(** The content of [ih[slice(start, stop)]]: a new [IntelHex()] that
    receives the populated bytes of
    [range(start or addresses[0], stop or addresses[-1]+1)]. The bound
    [stop] is excluded, as in every Python slice. (Releases of the
    library that test [is not None] instead of [or] build the same view
    for [stop <> 0] and an image without negative addresses: the view is
    then the populated part of [start <= a < stop] either way.) *)
Definition slice_of (o : IntelHex) (start stop : Z) : IntelHex :=
  let addrs := sorted_keys (buf o) in
  match addrs with
  | [] => IntelHex_empty
  | first :: _ =>
      let start := py_or start first in
      let stop := py_or stop (List.last addrs first + 1) in
      fold_left (copy_populated o) (py_range start stop 1) IntelHex_empty
  end.

(** [ih[slice(start, stop)]] *)
Definition getitem_slice (ih : loc) (start stop : Z) : M loc :=
  o <- deref ih ;;
  alloc (slice_of o start stop).

(** The loop of [_tobinarray_really]: the bytes of [start..end_], [padding]
    where nothing is populated. *)
Definition tobin_of (o : IntelHex) (start end_ : Z) : bytes :=
  (fun i => default (padding o) (buf o !! i)) <$> py_range start (end_ + 1) 1.

(** [ih.tobinstr(start=start, size=size)]: [size] bytes from [start] on
    ([end = start + size - 1]); [ValueError] for [size <= 0]. *)
Definition tobinstr (ih : loc) (start size : Z) : M bytes :=
  o <- deref ih ;;
  if bool_decide (size <= 0) then raise ValueError
  else ret (tobin_of o start (start + size - 1)).

(** ** Translators: [mem2boot] and [erase2boot] *)

(** The body of the loop of [mem2boot], for one [addr]; [crc] is the
    local it updates. *)
Definition mem2boot_chunk (ih : loc) (page erase maxaddr recsize : Z)
    (crc : Z) (addr : Z) : M Z :=
  let size := Z.min recsize (maxaddr - addr + 1) in
  data <- tobinstr ih addr size ;;
  let crc := crc16 data crc in
  let bin :=
    if bool_decide (erase = 0) || negb (bool_decide (addr `mod` page = 0))
    then bin_write addr data
    else if bool_decide (erase = 1)
    then match bin_erase addr [], bin_write addr data with
         | Some e, Some w => Some (e ++ w)
         | _, _ => None
         end
    else bin_erase addr data in
  brec_write bin ;;;
  ret crc.

(** [mem2boot(brec, ih, page, erase)] *)
Definition mem2boot (ih : loc) (page erase : Z) : M unit :=
  addrs <- addresses ih ;;
  match addrs with
  | [] => ret tt
  | first :: _ =>
      q <- int_div first page ;;
      let minaddr := q * page in
      let maxaddr := List.last addrs first in
      let recsize := Z.min 128 page in
      crc <- for_fold (py_range minaddr (maxaddr + 1) recsize) 0
               (mem2boot_chunk ih page erase maxaddr recsize) ;;
      brec_write (bin_verify minaddr maxaddr crc)
  end.

(** [erase2boot(brec, start, stop, page)] *)
Definition erase2boot (start stop page : Z) : M unit :=
  q <- int_div start page ;;
  let page_start := q * page in
  for_each (py_range page_start (stop + 1) page)
    (fun addr => brec_write (bin_erase addr [])) ;;;
  let size := stop - start + 1 in
  brec_write (bin_verify start stop (crc16 (replicate (Z.to_nat size) xff) 0)).

(** ** The session: [hex2boot] *)

(** The fields of [args] that [hex2boot] reads. [args_hexfile] refers to
    the source the image is loaded from, [None] when no hex file is
    given. *)
Record Args := mkArgs {
  args_hexfile : option loc;
  args_bank : Z;
  args_erase : Z;
  args_id : list Z;
  args_lock : option Z;
  args_map : option string;
  args_start : Z;
  args_top : Z;
  args_wait : bool
}.

(** [hex2boot(brec, args)] *)
Definition hex2boot (args : Args) : M unit :=
  let failsafe :=
    bool_decide (args_bank args = 0) && bool_decide (args_start args = 0) in
  for_each (args_id args) (fun blid => brec_write (bin_ident blid)) ;;;
  brec_write (bin_setup (args_bank args) keys_default) ;;;
  match args_hexfile args with
  | Some source =>
      ih <- IntelHex_init source ;;
      resetv <- getitem ih 0 ;;
      (if failsafe && negb (bool_decide (resetv = xff))
       then setitem ih 0 xff else ret tt) ;;;
      for_each (get_regions (args_start args) (args_top args) (args_map args))
        (fun '(start, stop, page) =>
           view <- getitem_slice ih start stop ;;
           mem2boot view page (args_erase args)) ;;;
      (if failsafe && negb (bool_decide (resetv = xff))
       then brec_write (bin_write 0 [resetv]) else ret tt)
  | None =>
      match args_lock args with
      | None =>
          for_each (get_regions (args_start args) (args_top args) (args_map args))
            (fun '(start, stop, page) => erase2boot start stop page)
      | Some _ => ret tt
      end
  end ;;;
  match args_lock args with
  | Some lock => brec_write (bin_lock lock)
  | None => ret tt
  end ;;;
  if args_wait args then ret tt else brec_write (bin_runapp 0).

(** ** The vocabulary of the specification *)

(** The byte layout of the command records: marker, length, type code and
    a big-endian payload, the length counting the type code and the
    payload. *)
Module Layout.

Definition be16 (v : Z) : bytes := [byte_of_Z (v / 256); byte_of_Z (v `mod` 256)].

Definition record (type : byte) (payload : bytes) : bytes :=
  [x24; byte_of_Z (1 + len payload); type] ++ payload.

Definition Identity (v : Z) : bytes := record x30 (be16 v).
Definition Setup (keys bank : Z) : bytes := record x31 (be16 keys ++ [byte_of_Z bank]).
Definition Erase (addr : Z) (data : bytes) : bytes := record x32 (be16 addr ++ data).
Definition Write (addr : Z) (data : bytes) : bytes := record x33 (be16 addr ++ data).
Definition Verify (org end_ crc : Z) : bytes :=
  record x34 (be16 org ++ be16 end_ ++ be16 crc).
Definition Lock (v : Z) : bytes := record x35 (be16 v).
Definition RunApp (opt : Z) : bytes := record x36 (be16 opt).

End Layout.

(** The device families [regions] names. *)
Definition known_maps : list string :=
  [ "bb2"; "bb50"; "bb51"; "bb52"; "sb2"; "ub1" ]%string.

(** A declared region lies in the 16-bit space, starts at a non-negative
    address and has a positive page size. *)
Definition region_ok (r : region) : Prop :=
  0 <= r.1.1 /\ r.1.2 <= 0xffff /\ 1 <= r.2.

(** The clipping of one declared region to a window. *)
Definition overlaps (org top : Z) (r : region) : Prop :=
  Z.max org r.1.1 < Z.min top r.1.2.
Definition clip (org top : Z) (r : region) : region :=
  (Z.max org r.1.1, Z.min top r.1.2, r.2).

#[global] Instance overlaps_dec org top r : Decision (overlaps org top r).
Proof. unfold overlaps. apply _. Defined.

(** A value that fits an unsigned 16-bit field. *)
Definition u16 (v : Z) : Prop := 0 <= v <= 0xffff.

(** The state after [out] has been appended to the output. *)
Definition emit (s : state) (out : bytes) : state :=
  mkState (brec s ++ out) (heap s).

(** An address is populated in an image. *)
Definition populated (o : IntelHex) (addr : Z) : Prop := is_Some (buf o !! addr).

(** Every populated address fits the 16-bit address field. *)
Definition addresses_u16 (o : IntelHex) : Prop :=
  forall addr, populated o addr -> u16 addr.

Definition lowest_populated (o : IntelHex) (addr : Z) : Prop :=
  populated o addr /\ forall a, populated o a -> addr <= a.

Definition highest_populated (o : IntelHex) (addr : Z) : Prop :=
  populated o addr /\ forall a, populated o a -> a <= addr.

(** The erase modes of the command line (the value of [-e]). *)
Definition erase_none : Z := 0.
Definition erase_separate : Z := 1.
Definition erase_with_data : Z := 2.

Module Translate.

(** The records of one chunk, by erase mode and page alignment. *)
Definition chunk (page erase addr : Z) (data : bytes) : bytes :=
  if bool_decide (erase = erase_none \/ addr `mod` page <> 0)
  then Layout.Write addr data
  else if bool_decide (erase = erase_separate)
  then Layout.Erase addr [] ++ Layout.Write addr data
  else Layout.Erase addr data.

(** The bytes read for the chunk at [addr] of a walk that ends at [high]
    in steps of [step]. *)
Definition chunk_data (o : IntelHex) (step high addr : Z) : bytes :=
  tobin_of o addr (addr + Z.min step (high - addr + 1) - 1).

(** The records of a walk over [low..high], and the Verify record that
    closes it. *)
Definition walk_records (o : IntelHex) (page erase low high : Z) : bytes :=
  let step := Z.min 128 page in
  let walk := py_range low (high + 1) step in
  concat ((fun addr => chunk page erase addr (chunk_data o step high addr)) <$> walk)
  ++ Layout.Verify low high (crc16 (concat (chunk_data o step high <$> walk)) 0).

(** What translating an image view emits. *)
Definition records (o : IntelHex) (page erase : Z) : bytes :=
  match sorted_keys (buf o) with
  | [] => []
  | first :: rest =>
      walk_records o page erase (first / page * page) (List.last (first :: rest) first)
  end.

(** The records of one chunk, one by one. *)
Definition chunk_list (page erase addr : Z) (data : bytes) : list bytes :=
  if bool_decide (erase = erase_none \/ addr `mod` page <> 0)
  then [Layout.Write addr data]
  else if bool_decide (erase = erase_separate)
  then [Layout.Erase addr []; Layout.Write addr data]
  else [Layout.Erase addr data].

(** The records translating an image view emits, one by one, in order:
    their concatenation is [records]. *)
Definition record_list (o : IntelHex) (page erase : Z) : list bytes :=
  match sorted_keys (buf o) with
  | [] => []
  | first :: rest =>
      let low := first / page * page in
      let high := List.last (first :: rest) first in
      let step := Z.min 128 page in
      let walk := py_range low (high + 1) step in
      concat ((fun addr => chunk_list page erase addr (chunk_data o step high addr))
                <$> walk)
      ++ [Layout.Verify low high (crc16 (concat (chunk_data o step high <$> walk)) 0)]
  end.

(** Data written from [addr] on shows [0xFF] for address 0 when it covers
    that address. *)
Definition shows_ff_at_0 (addr : Z) (data : bytes) : Prop :=
  addr <= 0 < addr + len data -> data !! Z.to_nat (0 - addr) = Some xff.

(** The records a main translation under the failsafe rule consists of:
    Write and Erase records with a 16-bit address (the address a record
    carries is then the one it was built from) whose data shows [0xFF]
    for address 0, and Verify records. *)
Inductive failsafe_record : bytes -> Prop :=
  | failsafe_write addr data :
      u16 addr -> shows_ff_at_0 addr data ->
      failsafe_record (Layout.Write addr data)
  | failsafe_erase addr data :
      u16 addr -> shows_ff_at_0 addr data ->
      failsafe_record (Layout.Erase addr data)
  | failsafe_verify org end_ crc :
      failsafe_record (Layout.Verify org end_ crc).

End Translate.

(** The image a hex file with the given data bytes loads as. *)
Definition image_of (l : list (Z * byte)) : IntelHex := mkIntelHex (list_to_map l) xff.

(** The parts of a session on an image. *)
Module Session.

(** The arguments the command line lets through: 16-bit identity and lock
    values, a bank that fits its byte, a non-negative start address. *)
Definition args_ok (args : Args) : Prop :=
  Forall u16 (args_id args) /\ 0 <= args_bank args <= 0xff
  /\ 0 <= args_start args
  /\ forall lock, args_lock args = Some lock -> u16 lock.

Definition failsafe (args : Args) : bool :=
  bool_decide (args_bank args = 0) && bool_decide (args_start args = 0).

(** The byte the image shows at address 0. *)
Definition reset_vector (img : IntelHex) : byte :=
  default (padding img) (buf img !! 0).

(** The reset vector is overridden. *)
Definition override (args : Args) (img : IntelHex) : bool :=
  failsafe args && negb (bool_decide (reset_vector img = xff)).

(** The image that is translated. *)
Definition working_image (args : Args) (img : IntelHex) : IntelHex :=
  if override args img
  then mkIntelHex (<[0 := xff]> (buf img)) (padding img)
  else mkIntelHex (buf img) (padding img).

Definition opening (args : Args) : bytes :=
  concat (Layout.Identity <$> args_id args)
  ++ Layout.Setup keys_default (args_bank args).

Definition main_translation (args : Args) (img : IntelHex) : bytes :=
  concat ((fun r : region =>
             Translate.records (slice_of (working_image args img) r.1.1 r.1.2)
               r.2 (args_erase args))
            <$> get_regions (args_start args) (args_top args) (args_map args)).

(** The records of the main translation, one by one, in order. *)
Definition main_records (args : Args) (img : IntelHex) : list bytes :=
  concat ((fun r : region =>
             Translate.record_list (slice_of (working_image args img) r.1.1 r.1.2)
               r.2 (args_erase args))
            <$> get_regions (args_start args) (args_top args) (args_map args)).

Definition restore (args : Args) (img : IntelHex) : bytes :=
  if override args img then Layout.Write 0 [reset_vector img] else [].

Definition closing (args : Args) : bytes :=
  match args_lock args with Some lock => Layout.Lock lock | None => [] end
  ++ (if args_wait args then [] else Layout.RunApp 0).

End Session.

(** A statement keeps the objects of [h0]: run from a state whose heap
    extends [h0], it leaves a heap that extends [h0], whatever the
    outcome, and a value it returns satisfies [Q]. *)
Definition keeps (h0 : gmap loc IntelHex) {A} (m : M A) (Q : A -> Prop) : Prop :=
  forall s, h0 ⊆ heap s ->
    h0 ⊆ heap (m s).2 /\ forall a, (m s).1 = Ok a -> Q a.

(** ** Reading a record stream *)

(** A record as a consumer sees it: the marker, a length byte, and as many
    bytes as the length byte says (at least the type code). *)
Definition framed (r : bytes) : Prop :=
  exists l body, r = x24 :: l :: body /\ byte_val l = len body /\ 1 <= len body.

(** Cutting a stream into records at the positions the length bytes give;
    [None] when a marker is missing or the stream ends inside a record.
    [fuel] bounds the number of records. *)
Fixpoint split_records (fuel : nat) (stream : bytes) : option (list bytes) :=
  match stream with
  | [] => Some []
  | m :: l :: rest =>
      let n := Z.to_nat (byte_val l) in
      if bool_decide (m = x24) && bool_decide (n <= length rest)%nat
      then match fuel with
           | O => None
           | S fuel' =>
               match split_records fuel' (drop n rest) with
               | Some rs => Some ((m :: l :: take n rest) :: rs)
               | None => None
               end
           end
      else None
  | _ => None
  end.

Definition decode_stream (stream : bytes) : option (list bytes) :=
  split_records (length stream) stream.

(** One region ends before the other starts. *)
Definition before (a b : region) : Prop := a.1.2 < b.1.1.

(** The records of a range erase of one region: an address-only Erase per
    page, then the Verify of the erased range. *)
Definition erase_range_records (r : region) : bytes :=
  concat ((fun addr => Layout.Erase addr [])
            <$> py_range (r.1.1 / r.2 * r.2) (r.1.2 + 1) r.2)
  ++ Layout.Verify r.1.1 r.1.2
       (crc16 (replicate (Z.to_nat (r.1.2 - r.1.1 + 1)) xff) 0).

(** * Properties *)

(** ** Bit-level facts *)

Lemma byte_val_range (b : byte) : 0 <= byte_val b < 256.
Proof.
  unfold byte_val. pose proof (Byte.to_N_bounded b). lia.
Qed.

Lemma byte_of_Z_val (v : Z) : 0 <= v < 256 -> byte_val (byte_of_Z v) = v.
Proof.
  intros Hv. unfold byte_val, byte_of_Z.
  destruct (Byte.of_N (Z.to_N v)) as [b|] eqn:E.
  - apply Byte.to_of_N in E. rewrite E. lia.
  - apply Byte.of_N_None_iff in E. lia.
Qed.

Lemma byte_of_Z_of_val (b : byte) : byte_of_Z (byte_val b) = b.
Proof.
  unfold byte_val, byte_of_Z. rewrite N2Z.id, Byte.of_to_N. reflexivity.
Qed.

(** Reading a bit of the usual expressions, for a non-negative index. *)
Ltac testbits :=
  repeat first
    [ rewrite Z.lxor_spec | rewrite Z.land_spec
    | rewrite Z.shiftl_spec by lia | rewrite Z.shiftr_spec by lia
    | rewrite Z.testbit_ones_nonneg by lia ].

Ltac bitwise i Hi := apply Z.bits_inj'; intros i Hi; testbits.

Lemma low_mask_small (n a : Z) :
  0 <= n -> 0 <= a < 2 ^ n -> Z.land a (Z.ones n) = a.
Proof. intros Hn Ha. rewrite Z.land_ones by lia. apply Z.mod_small. lia. Qed.

Lemma land_lxor_distr (a b c : Z) :
  Z.land (Z.lxor a b) c = Z.lxor (Z.land a c) (Z.land b c).
Proof.
  bitwise i Hi.
  destruct (Z.testbit a i), (Z.testbit b i), (Z.testbit c i); reflexivity.
Qed.

Lemma lxor_small (n a b : Z) :
  0 <= n -> 0 <= a < 2 ^ n -> 0 <= b < 2 ^ n -> 0 <= Z.lxor a b < 2 ^ n.
Proof.
  intros Hn Ha Hb.
  assert (E : Z.land (Z.lxor a b) (Z.ones n) = Z.lxor a b).
  { rewrite land_lxor_distr, !low_mask_small by lia. reflexivity. }
  rewrite <- E, Z.land_ones by lia. apply Z.mod_pos_bound. lia.
Qed.

Lemma testbit_small (n a : Z) : 0 <= n -> 0 <= a < 2 ^ n -> Z.testbit a n = false.
Proof.
  intros Hn Ha. rewrite <- (low_mask_small n a) by lia.
  rewrite Z.land_spec, Z.testbit_ones_nonneg, Z.ltb_irrefl by lia.
  apply andb_false_r.
Qed.

(** ** The checksum *)

Section Crc.

Import XModem.

Lemma shift_reduce_range (reg : Z) : 0 <= shift_reduce reg < 2 ^ 16.
Proof.
  unfold shift_reduce.
  assert (H : 0 <= Z.land (Z.shiftl reg 1) 0xffff < 2 ^ 16).
  { change 0xffff with (Z.ones 16). rewrite Z.land_ones by lia.
    apply Z.mod_pos_bound. lia. }
  destruct (Z.testbit reg 15); [|exact H].
  apply lxor_small; [lia | exact H | unfold poly; lia].
Qed.

(** A summand below bit 15 does not influence the reduction: it is only
    shifted. *)
Lemma shift_reduce_lxor (a b : Z) :
  0 <= b < 2 ^ 15 ->
  shift_reduce (Z.lxor a b) = Z.lxor (shift_reduce a) (Z.shiftl b 1).
Proof.
  intros Hb. unfold shift_reduce.
  rewrite Z.lxor_spec, (testbit_small 15 b), xorb_false_r by lia.
  assert (E : Z.land (Z.shiftl (Z.lxor a b) 1) 0xffff
              = Z.lxor (Z.land (Z.shiftl a 1) 0xffff) (Z.shiftl b 1)).
  { rewrite Z.shiftl_lxor, land_lxor_distr. f_equal.
    change 0xffff with (Z.ones 16). apply low_mask_small; [lia|].
    rewrite Z.shiftl_mul_pow2 by lia. lia. }
  rewrite E. destruct (Z.testbit a 15); [|reflexivity].
  rewrite !Z.lxor_assoc. f_equal. apply Z.lxor_comm.
Qed.

Lemma iter8_unfold (f : Z -> Z) (x : Z) :
  Nat.iter 8 f x = f (f (f (f (f (f (f (f x))))))).
Proof. reflexivity. Qed.

Lemma iter8_shift_reduce_lxor (a l : Z) :
  0 <= l < 256 ->
  Nat.iter 8 shift_reduce (Z.lxor a l)
  = Z.lxor (Nat.iter 8 shift_reduce a) (Z.shiftl l 8).
Proof.
  intros Hl. rewrite !iter8_unfold.
  repeat (rewrite shift_reduce_lxor
            by (rewrite ?Z.shiftl_shiftl by lia;
                rewrite ?Z.shiftl_mul_pow2 by lia; simpl; lia)).
  rewrite !Z.shiftl_shiftl by lia. reflexivity.
Qed.

Lemma iter8_shift_reduce_range (reg : Z) :
  0 <= Nat.iter 8 shift_reduce reg < 2 ^ 16.
Proof. rewrite iter8_unfold. apply shift_reduce_range. Qed.

(** Each of the 256 table entries is the reduction of its index placed in
    the high byte. *)
Lemma table_entries_checked :
  forallb (fun i => table_get _CRC16_XMODEM_TABLE (Z.of_nat i)
                    =? Nat.iter 8 shift_reduce (Z.shiftl (Z.of_nat i) 8))
          (seq 0 256) = true.
Proof. vm_compute. reflexivity. Qed.

Lemma table_entry (x : Z) :
  0 <= x < 256 ->
  table_get _CRC16_XMODEM_TABLE x = Nat.iter 8 shift_reduce (Z.shiftl x 8).
Proof.
  intros Hx. pose proof table_entries_checked as H.
  rewrite forallb_forall in H. specialize (H (Z.to_nat x)).
  rewrite Z2Nat.id in H by lia. apply Z.eqb_eq, H, in_seq. lia.
Qed.

Lemma split_register (crc v : Z) :
  Z.lxor crc (Z.shiftl v 8)
  = Z.lxor (Z.shiftl (Z.lxor (Z.shiftr crc 8) v) 8) (Z.land crc (Z.ones 8)).
Proof.
  apply Z.bits_inj'; intros i Hi. destruct (Z.ltb_spec i 8) as [Hlt|Hge].
  - testbits. destruct (Z.ltb_spec i 8); [|lia].
    rewrite !(Z.testbit_neg_r _ (i - 8)) by lia.
    destruct (Z.testbit crc i); reflexivity.
  - testbits. destruct (Z.ltb_spec i 8); [lia|].
    replace (i - 8 + 8) with i by lia. rewrite andb_false_r, xorb_false_r.
    reflexivity.
Qed.

Lemma low_byte_shifted (crc : Z) :
  Z.land (Z.shiftl crc 8) 0xff00 = Z.shiftl (Z.land crc (Z.ones 8)) 8.
Proof. rewrite Z.shiftl_land. reflexivity. Qed.

Lemma high_byte_range (crc : Z) : 0 <= crc < 2 ^ 16 -> 0 <= Z.shiftr crc 8 < 256.
Proof.
  intros H. rewrite Z.shiftr_div_pow2 by lia. split.
  - apply Z.div_pos; lia.
  - apply Z.div_lt_upper_bound; lia.
Qed.

(** One byte: the table look-up is the eight shift-and-reduce steps. *)
Lemma crc16_update_feed_byte (crc : Z) (b : byte) :
  0 <= crc < 2 ^ 16 ->
  crc16_update _CRC16_XMODEM_TABLE crc b = feed_byte crc b.
Proof.
  intros Hc. unfold crc16_update, feed_byte.
  pose proof (high_byte_range crc Hc) as Hh.
  pose proof (byte_val_range b) as Hb.
  change 0xff with (Z.ones 8).
  rewrite (low_mask_small 8 (Z.shiftr crc 8)) by lia.
  rewrite split_register, iter8_shift_reduce_lxor.
  2:{ rewrite Z.land_ones by lia. apply Z.mod_pos_bound. lia. }
  rewrite table_entry by (apply (lxor_small 8); lia).
  rewrite low_byte_shifted. apply Z.lxor_comm.
Qed.

Lemma feed_byte_range (crc : Z) (b : byte) : 0 <= feed_byte crc b < 2 ^ 16.
Proof. apply iter8_shift_reduce_range. Qed.

Lemma checksum_range (data : bytes) (init : Z) :
  0 <= init < 2 ^ 16 -> 0 <= checksum data init < 2 ^ 16.
Proof.
  revert init. induction data as [|b data IH]; intros init Hi; [exact Hi|].
  apply IH, feed_byte_range.
Qed.

Lemma crc16_loop_checksum (data : bytes) (crc : Z) :
  0 <= crc < 2 ^ 16 ->
  fold_left (crc16_update _CRC16_XMODEM_TABLE) data crc = checksum data crc.
Proof.
  revert crc. induction data as [|b data IH]; intros crc Hc; [reflexivity|].
  cbn [fold_left checksum]. rewrite crc16_update_feed_byte by exact Hc.
  apply IH, feed_byte_range.
Qed.

(** The loop body only reads the low 16 bits of the register. *)
Lemma crc16_update_mask (table : list Z) (crc : Z) (b : byte) :
  crc16_update table (Z.land crc 0xffff) b = crc16_update table crc b.
Proof.
  unfold crc16_update. f_equal; [|f_equal; f_equal].
  - change 0xff00 with (Z.shiftl (Z.ones 8) 8). change 0xffff with (Z.ones 16).
    bitwise i Hi. destruct (Z.ltb_spec (i - 8) 8) as [Hlt|Hge].
    + destruct (Z.ltb_spec (i - 8) 16); [|lia].
      destruct (Z.le_gt_cases 0 (i - 8)).
      * rewrite Z.testbit_ones_nonneg by lia.
        destruct (Z.ltb_spec (i - 8) 16); [|lia].
        rewrite andb_true_r. reflexivity.
      * rewrite !(Z.testbit_neg_r _ (i - 8)) by lia. reflexivity.
    + rewrite (Z.testbit_ones_nonneg 8) by lia.
      destruct (Z.ltb_spec (i - 8) 8); [lia|]. rewrite !andb_false_r.
      reflexivity.
  - change 0xff with (Z.ones 8). change 0xffff with (Z.ones 16).
    bitwise i Hi. destruct (Z.ltb_spec i 8) as [Hlt|Hge].
    + destruct (Z.ltb_spec (i + 8) 16); [|lia].
      rewrite !andb_true_r. reflexivity.
    + rewrite !andb_false_r. reflexivity.
Qed.

Lemma crc16_with_mask (table : list Z) (data : bytes) (crc : Z) :
  crc16_with table data (Z.land crc 0xffff) = crc16_with table data crc.
Proof.
  unfold crc16_with. destruct data as [|b data]; cbn [fold_left].
  - rewrite <- Z.land_assoc. reflexivity.
  - rewrite crc16_update_mask. reflexivity.
Qed.

Lemma crc16_app (a b : bytes) (c : Z) :
  crc16 (a ++ b) c = crc16 b (crc16 a c).
Proof.
  unfold crc16. unfold crc16_with at 3. rewrite crc16_with_mask.
  unfold crc16_with. rewrite fold_left_app. reflexivity.
Qed.

Lemma crc16_range (data : bytes) (c : Z) : 0 <= crc16 data c < 2 ^ 16.
Proof.
  unfold crc16, crc16_with. change 0xffff with (Z.ones 16).
  rewrite Z.land_ones by lia. apply Z.mod_pos_bound. lia.
Qed.

Lemma crc16_chunks (chunks : list bytes) (c : Z) :
  0 <= c < 2 ^ 16 ->
  fold_left (fun crc chunk => crc16 chunk crc) chunks c = crc16 (concat chunks) c.
Proof.
  revert c. induction chunks as [|ch chunks IH]; intros c Hc; cbn [fold_left concat].
  - unfold crc16, crc16_with. cbn [fold_left]. change 0xffff with (Z.ones 16).
    symmetry. apply low_mask_small; lia.
  - rewrite crc16_app. apply IH, crc16_range.
Qed.

(** C8. The table-driven [crc16] is CRC-16/XMODEM as defined bit by bit
    (polynomial 0x1021, most significant bit first, no reflection, no final
    xor), for every byte sequence and every 16-bit initial value; over the
    ASCII bytes of "123456789" from 0 it gives 0x31C3. *)
Theorem crc16_is_xmodem (data : bytes) (init : Z) :
  0 <= init < 2 ^ 16 ->
  crc16 data init = checksum data init
  /\ crc16 [x31; x32; x33; x34; x35; x36; x37; x38; x39] 0 = 0x31C3.
Proof.
  intros Hi. split; [|vm_compute; reflexivity].
  unfold crc16, crc16_with. rewrite crc16_loop_checksum by exact Hi.
  change 0xffff with (Z.ones 16). apply low_mask_small; [lia|].
  apply checksum_range, Hi.
Qed.

Lemma crc16_is_xmodem_witness :
  crc16 [x00; xff; x24] 0xA5F1 = checksum [x00; xff; x24] 0xA5F1.
Proof.
  refine (proj1 (crc16_is_xmodem [x00; xff; x24] 0xA5F1 _)). lia.
Defined.

(** C9. [crc16] is a running checksum: the checksum of [a ++ b] from [c]
    is the checksum of [b] from the checksum of [a] from [c]; so chaining
    it over chunks, from 0, gives the checksum of their concatenation. *)
Theorem crc16_incremental (a b : bytes) (c : Z) (chunks : list bytes) :
  crc16 (a ++ b) c = crc16 b (crc16 a c)
  /\ fold_left (fun crc chunk => crc16 chunk crc) chunks 0
     = crc16 (concat chunks) 0.
Proof. split; [apply crc16_app | apply crc16_chunks; lia]. Qed.

End Crc.

(** ** The record constructors *)

Section Records.

Import Layout.

Lemma pack_B_ok (v : Z) :
  0 <= v <= 0xff -> pack_field fmt_B (PyInt v) = Some [byte_of_Z v].
Proof. intros H. cbn [pack_field]. rewrite bool_decide_eq_true_2 by exact H. reflexivity. Qed.

Lemma pack_H_ok (v : Z) : u16 v -> pack_field fmt_H (PyInt v) = Some (be16 v).
Proof.
  intros H. cbn [pack_field]. rewrite bool_decide_eq_true_2 by exact H.
  unfold be16. rewrite Z.shiftr_div_pow2 by lia.
  change 0xff with (Z.ones 8). rewrite Z.land_ones by lia. reflexivity.
Qed.

Lemma pack_H_raises (v : Z) : ~ u16 v -> pack_field fmt_H (PyInt v) = None.
Proof. intros H. cbn [pack_field]. rewrite bool_decide_eq_false_2 by exact H. reflexivity. Qed.

Lemma struct_pack_cons (f : fmt_char) (fmt : list fmt_char) (v : pyval)
    (args : list pyval) (b rest : bytes) :
  pack_field f v = Some b -> struct_pack fmt args = Some rest ->
  struct_pack (f :: fmt) (v :: args) = Some (b ++ rest).
Proof. intros Hb Hr. cbn [struct_pack]. rewrite Hb, Hr. reflexivity. Qed.

(** Header of a 16-bit-addressed record: marker, length, type, address. *)
Lemma pack_header (n ty v : Z) :
  0 <= n <= 0xff -> 0 <= ty <= 0xff -> u16 v ->
  struct_pack [fmt_c; fmt_B; fmt_B; fmt_H] [PyBytes FSB; PyInt n; PyInt ty; PyInt v]
  = Some ([x24; byte_of_Z n; byte_of_Z ty] ++ be16 v).
Proof.
  intros Hn Ht Hv.
  erewrite struct_pack_cons; [| reflexivity |].
  2:{ erewrite struct_pack_cons; [| apply pack_B_ok, Hn |].
      2:{ erewrite struct_pack_cons; [| apply pack_B_ok, Ht |].
          2:{ erewrite struct_pack_cons; [| apply pack_H_ok, Hv | reflexivity].
              reflexivity. }
          reflexivity. }
      reflexivity. }
  rewrite app_nil_r. reflexivity.
Qed.

Lemma bin_ident_ok (blid : Z) : u16 blid -> bin_ident blid = Some (Identity blid).
Proof. intros H. unfold bin_ident, S_IDENT. rewrite pack_header by (done || lia). reflexivity. Qed.

Lemma bin_lock_ok (lock : Z) : u16 lock -> bin_lock lock = Some (Lock lock).
Proof. intros H. unfold bin_lock, S_LOCK. rewrite pack_header by (done || lia). reflexivity. Qed.

Lemma bin_runapp_ok (opt : Z) : u16 opt -> bin_runapp opt = Some (RunApp opt).
Proof. intros H. unfold bin_runapp, S_RUNAPP. rewrite pack_header by (done || lia). reflexivity. Qed.

Lemma bin_erase_ok (addr : Z) (data : bytes) :
  u16 addr -> 3 + len data <= 0xff -> bin_erase addr data = Some (Erase addr data).
Proof.
  intros Ha Hl. unfold bin_erase, S_ERASE, len in *.
  rewrite pack_header by (done || lia). cbn [pack_then].
  unfold Erase, record, be16, len. cbn [length app].
  do 3 f_equal. f_equal. lia.
Qed.

Lemma bin_write_ok (addr : Z) (data : bytes) :
  u16 addr -> 3 + len data <= 0xff -> bin_write addr data = Some (Write addr data).
Proof.
  intros Ha Hl. unfold bin_write, S_WRITE, len in *.
  rewrite pack_header by (done || lia). cbn [pack_then].
  unfold Write, record, be16, len. cbn [length app].
  do 3 f_equal. f_equal. lia.
Qed.

Lemma bin_setup_ok (bank keys : Z) :
  0 <= bank <= 0xff -> u16 keys -> bin_setup bank keys = Some (Setup keys bank).
Proof.
  intros Hb Hk. unfold bin_setup, S_SETUP. cbn [struct_pack].
  rewrite (pack_H_ok keys Hk), (pack_B_ok bank Hb), !pack_B_ok by lia.
  reflexivity.
Qed.

Lemma bin_verify_ok (org end_ crc : Z) :
  u16 org -> u16 end_ -> u16 crc -> bin_verify org end_ crc = Some (Verify org end_ crc).
Proof.
  intros Ho He Hc. unfold bin_verify, S_VERIFY. cbn [struct_pack].
  rewrite (pack_H_ok org Ho), (pack_H_ok end_ He), (pack_H_ok crc Hc), !pack_B_ok by lia.
  reflexivity.
Qed.

Lemma be16_value (v : Z) :
  u16 v ->
  exists hi lo, be16 v = [hi; lo] /\ byte_val hi * 256 + byte_val lo = v.
Proof.
  intros Hv. unfold u16 in Hv. eexists _, _. split; [reflexivity|].
  rewrite !byte_of_Z_val.
  - pose proof (Z.div_mod v 256). lia.
  - apply Z.mod_pos_bound. lia.
  - split; [apply Z.div_pos; lia | apply Z.div_lt_upper_bound; lia].
Qed.

Lemma be16_inj (a b : Z) : u16 a -> u16 b -> be16 a = be16 b -> a = b.
Proof.
  unfold u16. intros Ha Hb H. injection H as Hhi Hlo.
  apply (f_equal byte_val) in Hhi, Hlo.
  rewrite !byte_of_Z_val in Hhi, Hlo;
    try (apply Z.mod_pos_bound; lia);
    try (split; [apply Z.div_pos; lia | apply Z.div_lt_upper_bound; lia]).
  rewrite (Z.div_mod a 256), (Z.div_mod b 256) by lia. lia.
Qed.

(** C7. Each record constructor gives exactly: the marker 0x24, the length
    byte, the type code, the payload with every 16-bit field high byte
    first. Identity: type 0x30, a 2-byte value, length 3. Setup: 0x31,
    2-byte keys (default 0xA5F1) and the bank byte, length 4. Erase: 0x32,
    2-byte address then the data, length 3 + len(data). Write: 0x33,
    likewise. Verify: 0x34, start, end and CRC of 2 bytes each, length 7.
    Lock: 0x35, a 2-byte value, length 3. RunApp: 0x36, a 2-byte option,
    length 3. The length byte is 1 + the payload byte count. This holds
    for the field values [struct] accepts: 16-bit fields within 0..0xFFFF,
    the bank and the length within 0..0xFF. *)
Theorem bin_records_layout (blid keys bank addr org end_ crc lock opt : Z)
    (data : bytes) :
  u16 blid -> u16 keys -> 0 <= bank <= 0xff -> u16 addr ->
  3 + len data <= 0xff -> u16 org -> u16 end_ -> u16 crc -> u16 lock -> u16 opt ->
  bin_ident blid = Some ([x24; x03; x30] ++ be16 blid)
  /\ bin_setup bank keys = Some ([x24; x04; x31] ++ be16 keys ++ [byte_of_Z bank])
  /\ keys_default = 0xA5F1
  /\ bin_erase addr data
     = Some ([x24; byte_of_Z (3 + len data); x32] ++ be16 addr ++ data)
  /\ bin_write addr data
     = Some ([x24; byte_of_Z (3 + len data); x33] ++ be16 addr ++ data)
  /\ bin_verify org end_ crc
     = Some ([x24; x07; x34] ++ be16 org ++ be16 end_ ++ be16 crc)
  /\ bin_lock lock = Some ([x24; x03; x35] ++ be16 lock)
  /\ bin_runapp opt = Some ([x24; x03; x36] ++ be16 opt)
  /\ byte_val (byte_of_Z (3 + len data)) = 1 + len (be16 addr ++ data)
  /\ byte_val (byte_of_Z bank) = bank
  /\ (forall v, In v [blid; keys; addr; org; end_; crc; lock; opt] ->
      exists hi lo, be16 v = [hi; lo] /\ byte_val hi * 256 + byte_val lo = v).
Proof.
  intros Hblid Hkeys Hbank Haddr Hlen Horg Hend Hcrc Hlock Hopt.
  assert (Hl : 0 <= len data) by (unfold len; lia).
  split; [rewrite bin_ident_ok by done; reflexivity|].
  split; [rewrite bin_setup_ok by done; reflexivity|].
  split; [reflexivity|].
  split.
  { rewrite bin_erase_ok by done. unfold Erase, record, be16, len.
    cbn [length app]. do 3 f_equal. f_equal. lia. }
  split.
  { rewrite bin_write_ok by done. unfold Write, record, be16, len.
    cbn [length app]. do 3 f_equal. f_equal. lia. }
  split; [rewrite bin_verify_ok by done; reflexivity|].
  split; [rewrite bin_lock_ok by done; reflexivity|].
  split; [rewrite bin_runapp_ok by done; reflexivity|].
  split.
  { rewrite byte_of_Z_val by lia. unfold be16, len. cbn [length app]. lia. }
  split; [apply byte_of_Z_val; lia|].
  intros v Hv. apply be16_value. cbn [In] in Hv.
  destruct Hv as [<-|[<-|[<-|[<-|[<-|[<-|[<-|[<-|[]]]]]]]]]; assumption.
Qed.

Lemma bin_records_layout_witness :
  bin_ident 0x1234 = Some [x24; x03; x30; x12; x34]
  /\ bin_setup 1 keys_default = Some [x24; x04; x31; xa5; xf1; x01]
  /\ bin_erase 0x0200 [] = Some [x24; x03; x32; x02; x00]
  /\ bin_write 0x0200 [] = Some [x24; x03; x33; x02; x00]
  /\ bin_verify 0 0x01ff 0xbeef = Some [x24; x07; x34; x00; x00; x01; xff; xbe; xef]
  /\ bin_lock 0x00a5 = Some [x24; x03; x35; x00; xa5]
  /\ bin_runapp 0 = Some [x24; x03; x36; x00; x00].
Proof.
  assert (H16 : forall v, (0 <=? v) && (v <=? 0xffff) = true -> u16 v).
  { intros v H. apply andb_true_iff in H. unfold u16. lia. }
  destruct (bin_records_layout 0x1234 keys_default 1 0x0200 0 0x01ff 0xbeef 0x00a5 0 [])
    as (H1 & H2 & _ & H3 & H4 & H5 & H6 & H7 & _);
    try (apply H16; reflexivity); try (unfold len; simpl; lia).
  split; [exact H1|]. split; [exact H2|]. split; [exact H3|].
  split; [exact H4|]. split; [exact H5|]. split; [exact H6|exact H7].
Defined.

End Records.

(** ** The flash maps and the region planner *)

Section Maps.

Lemma regions_table_unknown (name : string) :
  name ∉ known_maps -> regions_table !! name = None.
Proof. intros H. apply not_elem_of_list_to_map_1. exact H. Qed.

Lemma regions_table_known (name : string) (rs : list region) :
  regions_table !! name = Some rs ->
  rs = [ (0x0000, 0x3DFF, 512); (0xF800, 0xFBBF, 64) ]
  \/ rs = [ (0x0000, 0x37FF, 2048) ]
  \/ rs = [ (0x0000, 0x77FF, 2048) ]
  \/ rs = [ (0x0000, 0xF7FF, 1024) ].
Proof.
  intros H. apply elem_of_list_to_map_2 in H.
  repeat (apply elem_of_cons in H as [E|H]; [injection E as _ <-; tauto|]).
  apply elem_of_nil in H. contradiction.
Qed.

(** Every declared region of every map is well formed. *)
Lemma regions_ok (type : option string) : Forall region_ok (regions type).
Proof.
  assert (Hd : Forall region_ok regions_default).
  { repeat constructor; cbn; lia. }
  destruct type as [name|]; [|exact Hd]. cbn [regions].
  destruct (regions_table !! name) as [rs|] eqn:E; [|exact Hd]. cbn.
  apply regions_table_known in E as [-> | [-> | [-> | ->]]];
    repeat constructor; cbn; lia.
Qed.

Lemma regions_cases (type : option string) :
  regions type = [ (0x0000, 0x3DFF, 512); (0xF800, 0xFBBF, 64) ]
  \/ regions type = [ (0x0000, 0x37FF, 2048) ]
  \/ regions type = [ (0x0000, 0x77FF, 2048) ]
  \/ regions type = [ (0x0000, 0xF7FF, 1024) ]
  \/ regions type = [ (0x0000, 0xFBFF, 512) ].
Proof.
  destruct type as [name|]; [|tauto]. cbn [regions].
  destruct (regions_table !! name) as [rs|] eqn:E; [|tauto].
  apply regions_table_known in E. cbn. tauto.
Qed.

Lemma get_regions_of_filter (org top : Z) (rs : list region) :
  get_regions_of org top rs = clip org top <$> filter (overlaps org top) rs.
Proof.
  induction rs as [|[[start stop] page] rs IH]; [reflexivity|].
  cbn [get_regions_of]. rewrite filter_cons. unfold overlaps at 2. cbn [fst snd].
  case_bool_decide as H.
  - rewrite decide_True by exact H. rewrite fmap_cons, IH. reflexivity.
  - rewrite decide_False by exact H. exact IH.
Qed.

Lemma get_regions_of_ok (org top : Z) (rs : list region) :
  0 <= org -> Forall region_ok rs ->
  Forall (fun r => org <= r.1.1 /\ r.1.1 < r.1.2 /\ r.1.2 <= 0xffff
                   /\ r.1.2 <= top /\ 1 <= r.2)
         (get_regions_of org top rs).
Proof.
  intros Horg Hrs. induction Hrs as [|[[start stop] page] rs (H1 & H2 & H3) _ IH];
    [constructor|].
  cbn [fst snd] in *. cbn [get_regions_of]. case_bool_decide as H; [|exact IH].
  constructor; [|exact IH]. cbn [fst snd]. lia.
Qed.

(** C1, as the code has it. For every map identifier that is not one of the
    known device families (and for no identifier at all), [regions]
    returns the default map: the single region that starts at 0x0000, ends
    at 0xFBFF inclusive and has page size 512. *)
Theorem regions_unknown_default (type : option string) :
  (forall name, type = Some name -> name ∉ known_maps) ->
  regions type = [ (0x0000, 0xFBFF, 512) ].
Proof.
  intros H. destruct type as [name|]; [|reflexivity]. cbn [regions].
  rewrite regions_table_unknown by (apply H; reflexivity). reflexivity.
Qed.

Lemma regions_unknown_default_witness :
  regions (Some "efm8"%string) = [ (0x0000, 0xFBFF, 512) ].
Proof.
  apply regions_unknown_default. intros name [= <-].
  unfold known_maps. rewrite !not_elem_of_cons.
  repeat split; try discriminate. apply not_elem_of_nil.
Defined.

(** C1, as stated, fails: for the unknown identifier "efm8" the region
    returned does not end at 0xFFFF, whatever the page size. *)
Lemma regions_default_not_full_space :
  ~ exists page, regions (Some "efm8"%string) = [ (0x0000, 0xFFFF, page) ].
Proof. intros [page H]. vm_compute in H. discriminate H. Qed.

(** C6. [get_regions] yields, in the order the map declares its regions,
    exactly the clipped tuples [(max(org, start), min(top, stop), page)]
    of the regions with [max(org, start) < min(top, stop)]; for the window
    [0x0000, 0x3E00] and the regions [0x0000,0x3DFF,512] and
    [0xF800,0xFBBF,64] (the map "bb2") that is the single region
    [(0x0000, 0x3DFF, 512)]. *)
Theorem get_regions_plan (org top : Z) (type : option string) :
  get_regions org top type
  = clip org top <$> filter (overlaps org top) (regions type)
  /\ regions (Some "bb2"%string)
     = [ (0x0000, 0x3DFF, 512); (0xF800, 0xFBBF, 64) ]
  /\ get_regions 0x0000 0x3E00 (Some "bb2"%string) = [ (0x0000, 0x3DFF, 512) ].
Proof.
  split; [apply get_regions_of_filter|].
  split; vm_compute; reflexivity.
Qed.

End Maps.

(** ** Ranges and sorted addresses *)

Section Ranges.

Lemma py_range_unit (start stop : Z) : py_range start stop 1 = seqZ start (stop - start).
Proof.
  unfold py_range, seqZ. rewrite bool_decide_eq_true_2 by lia.
  rewrite Z.div_1_r. replace (stop - start + 1 - 1) with (stop - start) by lia.
  apply list_fmap_ext. intros _ i _. lia.
Qed.

Lemma elem_of_py_range (start stop step a : Z) :
  0 < step -> a ∈ py_range start stop step ->
  start <= a < stop /\ (a - start) `mod` step = 0.
Proof.
  intros Hs Ha. unfold py_range in Ha. rewrite bool_decide_eq_true_2 in Ha by lia.
  apply list_elem_of_fmap in Ha as (i & -> & Hi).
  apply elem_of_seq in Hi. set (q := (stop - start + step - 1) / step) in *.
  assert (Hq : step * q <= stop - start + step - 1) by (apply Z.mul_div_le; lia).
  assert (Hiq : Z.of_nat i < q) by lia.
  split; [nia|].
  replace (start + Z.of_nat i * step - start) with (Z.of_nat i * step) by lia.
  apply Z.mod_mul. lia.
Qed.

Lemma elem_of_py_range_iff (start stop step a : Z) :
  0 < step ->
  a ∈ py_range start (stop + 1) step
  <-> exists i, 0 <= i /\ a = start + i * step /\ a <= stop.
Proof.
  intros Hs. split.
  - intros Ha. unfold py_range in Ha. rewrite bool_decide_eq_true_2 in Ha by lia.
    apply list_elem_of_fmap in Ha as (i & -> & Hi). apply elem_of_seq in Hi.
    set (q := (stop + 1 - start + step - 1) / step) in *.
    assert (Hq : step * q <= stop + 1 - start + step - 1) by (apply Z.mul_div_le; lia).
    exists (Z.of_nat i). repeat split; [lia|nia].
  - intros (i & Hi & -> & Hle). unfold py_range.
    rewrite bool_decide_eq_true_2 by lia. apply list_elem_of_fmap.
    exists (Z.to_nat i). split; [lia|]. apply elem_of_seq.
    set (q := (stop + 1 - start + step - 1) / step).
    assert (Hq : i + 1 <= q).
    { apply Z.div_le_lower_bound; [lia|]. nia. }
    lia.
Qed.

Lemma py_range_nonempty (start stop step : Z) :
  0 < step -> start < stop ->
  exists rest, py_range start stop step = start :: rest.
Proof.
  intros Hs Hlt. unfold py_range. rewrite bool_decide_eq_true_2 by lia.
  set (q := (stop - start + step - 1) / step).
  assert (Hq : 1 <= q).
  { apply Z.div_le_lower_bound; lia. }
  destruct (Z.to_nat q) as [|n] eqn:E; [lia|].
  cbn [seq fmap list_fmap]. eexists. f_equal. lia.
Qed.

Lemma tobin_of_length (o : IntelHex) (start end_ : Z) :
  length (tobin_of o start end_) = Z.to_nat (end_ + 1 - start).
Proof. unfold tobin_of. rewrite length_fmap, py_range_unit. apply length_seqZ. Qed.

Lemma tobin_of_lookup (o : IntelHex) (start end_ : Z) (i : nat) :
  Z.of_nat i < end_ + 1 - start ->
  tobin_of o start end_ !! i
  = Some (default (padding o) (buf o !! (start + Z.of_nat i))).
Proof.
  intros Hi. unfold tobin_of. rewrite list_lookup_fmap, py_range_unit.
  rewrite lookup_seqZ_lt by lia. reflexivity.
Qed.

Lemma elem_of_sorted_keys (m : gmap Z byte) (a : Z) :
  a ∈ sorted_keys m <-> is_Some (m !! a).
Proof.
  unfold sorted_keys. rewrite merge_sort_Permutation, list_elem_of_fmap. split.
  - intros ([k x] & -> & H). apply elem_of_map_to_list in H. eauto.
  - intros [x H]. exists (a, x). split; [reflexivity|].
    apply elem_of_map_to_list. exact H.
Qed.

Lemma sorted_keys_sorted (m : gmap Z byte) : StronglySorted Z.le (sorted_keys m).
Proof. apply (StronglySorted_merge_sort Z.le). Qed.

Lemma sorted_keys_nil (m : gmap Z byte) : sorted_keys m = [] <-> m = ∅.
Proof.
  split.
  - intros H. apply map_empty. intros a.
    destruct (m !! a) as [x|] eqn:E; [|reflexivity].
    assert (Ha : a ∈ sorted_keys m) by (apply elem_of_sorted_keys; eauto).
    rewrite H in Ha. apply elem_of_nil in Ha. contradiction.
  - intros ->. reflexivity.
Qed.

Lemma last_elem_of (l : list Z) (x d : Z) : x ∈ l -> List.last l d ∈ l.
Proof.
  induction l as [|y l IH] in x |- *; intros Hx; [apply elem_of_nil in Hx; contradiction|].
  destruct l as [|z l]; [cbn; left|].
  change (List.last (y :: z :: l) d) with (List.last (z :: l) d).
  right. apply (IH z). left.
Qed.

Lemma last_sorted_upper (l : list Z) (d x : Z) :
  StronglySorted Z.le l -> x ∈ l -> x <= List.last l d.
Proof.
  intros Hs. induction Hs as [|y l Hs IH Hall]; intros Hx;
    [apply elem_of_nil in Hx; contradiction|].
  destruct l as [|z l].
  - apply list_elem_of_singleton in Hx as ->. cbn. lia.
  - change (List.last (y :: z :: l) d) with (List.last (z :: l) d).
    apply elem_of_cons in Hx as [->|Hx]; [|apply IH, Hx].
    rewrite Forall_forall in Hall. apply Hall.
    apply (last_elem_of _ z). left.
Qed.

(** [addresses[0]] and [addresses[-1]] are the lowest and the highest
    populated address. *)
Lemma sorted_keys_bounds (o : IntelHex) (first : Z) (rest : list Z) :
  sorted_keys (buf o) = first :: rest ->
  lowest_populated o first
  /\ highest_populated o (List.last (first :: rest) first).
Proof.
  intros E. pose proof (sorted_keys_sorted (buf o)) as Hs. rewrite E in Hs.
  assert (Hin : forall a, populated o a <-> a ∈ first :: rest).
  { intros a. rewrite <- E. symmetry. apply elem_of_sorted_keys. }
  split; split.
  - apply Hin. left.
  - intros a Ha. apply Hin in Ha. apply StronglySorted_inv in Hs as [_ Hall].
    apply elem_of_cons in Ha as [->|Ha]; [lia|].
    rewrite Forall_forall in Hall. apply Hall, Ha.
  - apply Hin. apply (last_elem_of _ first). left.
  - intros a Ha. apply Hin in Ha. apply last_sorted_upper; assumption.
Qed.

Lemma lowest_populated_unique (o : IntelHex) (a b : Z) :
  lowest_populated o a -> lowest_populated o b -> a = b.
Proof. intros [Ha Hla] [Hb Hlb]. specialize (Hla b Hb). specialize (Hlb a Ha). lia. Qed.

Lemma highest_populated_unique (o : IntelHex) (a b : Z) :
  highest_populated o a -> highest_populated o b -> a = b.
Proof. intros [Ha Hla] [Hb Hlb]. specialize (Hla b Hb). specialize (Hlb a Ha). lia. Qed.

End Ranges.

(** ** Running statements *)

Section Running.

Lemma bind_ok {A B} (m : M A) (k : A -> M B) (s s' : state) (a : A) :
  m s = (Ok a, s') -> bind m k s = k a s'.
Proof. intros H. unfold bind. rewrite H. reflexivity. Qed.

Lemma bind_raise {A B} (m : M A) (k : A -> M B) (s s' : state) (e : exn) :
  m s = (Raise e, s') -> bind m k s = (Raise e, s').
Proof. intros H. unfold bind. rewrite H. reflexivity. Qed.

Lemma emit_nil (s : state) : emit s [] = s.
Proof. destruct s. unfold emit. cbn. rewrite app_nil_r. reflexivity. Qed.

Lemma emit_app (s : state) (a b : bytes) : emit (emit s a) b = emit s (a ++ b).
Proof. unfold emit. cbn. rewrite app_assoc. reflexivity. Qed.

Lemma brec_emit (s : state) (out : bytes) : brec (emit s out) = brec s ++ out.
Proof. reflexivity. Qed.

Lemma heap_emit (s : state) (out : bytes) : heap (emit s out) = heap s.
Proof. reflexivity. Qed.

Lemma brec_write_ok (b : bytes) (s : state) :
  brec_write (Some b) s = (Ok tt, emit s b).
Proof. reflexivity. Qed.

Lemma deref_ok (l : loc) (o : IntelHex) (s : state) :
  heap s !! l = Some o -> deref l s = (Ok o, s).
Proof. intros H. unfold deref. rewrite H. reflexivity. Qed.

Lemma int_div_ok (a b : Z) (s : state) :
  0 <= a -> 0 < b -> int_div a b s = (Ok (a / b), s).
Proof.
  intros Ha Hb. unfold int_div. rewrite bool_decide_eq_false_2 by lia.
  rewrite Z.quot_div_nonneg by lia. reflexivity.
Qed.

Lemma page_floor_bounds (a page : Z) :
  0 <= a -> 1 <= page -> 0 <= a / page * page <= a.
Proof.
  intros Ha Hp. pose proof (Z.mul_div_le a page ltac:(lia)).
  assert (0 <= a / page) by (apply Z.div_pos; lia). nia.
Qed.

End Running.

(** ** The range-erase translator *)

Section EraseRange.

Lemma erase_loop_run (l : list Z) (s : state) :
  Forall u16 l ->
  for_each l (fun addr => brec_write (bin_erase addr [])) s
  = (Ok tt, emit s (concat ((fun addr => Layout.Erase addr []) <$> l))).
Proof.
  intros Hl. revert s. induction Hl as [|a l Ha _ IH]; intros s.
  - cbn. rewrite emit_nil. reflexivity.
  - cbn [for_each]. erewrite bind_ok.
    2:{ rewrite bin_erase_ok by (done || (unfold len; cbn; lia)).
        apply brec_write_ok. }
    rewrite IH, emit_app. reflexivity.
Qed.

Lemma erase2boot_run (start stop page : Z) (s : state) :
  u16 start -> u16 stop -> start <= stop -> 1 <= page ->
  erase2boot start stop page s
  = (Ok tt,
     emit s
       (concat ((fun addr => Layout.Erase addr [])
                  <$> py_range (start / page * page) (stop + 1) page)
        ++ Layout.Verify start stop
             (crc16 (replicate (Z.to_nat (stop - start + 1)) xff) 0))).
Proof.
  intros Hs He Hle Hp. unfold u16 in *. unfold erase2boot.
  erewrite bind_ok by (apply int_div_ok; lia).
  pose proof (page_floor_bounds start page ltac:(lia) Hp) as Hf.
  erewrite bind_ok.
  2:{ apply erase_loop_run. apply Forall_forall. intros a Ha.
      apply elem_of_py_range in Ha as [Ha _]; [|lia]. unfold u16. lia. }
  rewrite bin_verify_ok.
  - rewrite brec_write_ok, emit_app. reflexivity.
  - exact Hs.
  - exact He.
  - pose proof (crc16_range (replicate (Z.to_nat (stop - start + 1)) xff) 0).
    unfold u16. lia.
Qed.



End EraseRange.

(** ** The image translator *)

Section ImageTranslator.

Import Translate.

Lemma chunk_data_length (o : IntelHex) (step high addr : Z) :
  1 <= step -> addr <= high ->
  len (chunk_data o step high addr) = Z.min step (high - addr + 1).
Proof.
  intros Hs Ha. unfold len, chunk_data. rewrite tobin_of_length. lia.
Qed.

Lemma tobinstr_ok (ih : loc) (o : IntelHex) (start size : Z) (s : state) :
  heap s !! ih = Some o -> 1 <= size ->
  tobinstr ih start size s = (Ok (tobin_of o start (start + size - 1)), s).
Proof.
  intros Hih Hsz. unfold tobinstr. erewrite bind_ok by (apply deref_ok, Hih).
  rewrite bool_decide_eq_false_2 by lia. reflexivity.
Qed.

(** One turn of the loop. *)
Lemma mem2boot_chunk_run (ih : loc) (o : IntelHex) (page erase maxaddr recsize : Z)
    (crc addr : Z) (s : state) :
  heap s !! ih = Some o -> 1 <= recsize <= 128 -> u16 addr -> addr <= maxaddr ->
  mem2boot_chunk ih page erase maxaddr recsize crc addr s
  = (Ok (crc16 (chunk_data o recsize maxaddr addr) crc),
     emit s (chunk page erase addr (chunk_data o recsize maxaddr addr))).
Proof.
  intros Hih Hrec Ha Hmax. unfold mem2boot_chunk.
  erewrite bind_ok by (apply tobinstr_ok; [exact Hih | lia]).
  fold (chunk_data o recsize maxaddr addr).
  pose proof (chunk_data_length o recsize maxaddr addr ltac:(lia) Hmax) as Hlen.
  set (data := chunk_data o recsize maxaddr addr) in *.
  assert (Hfit : 3 + len data <= 0xff) by lia.
  assert (Hnil : 3 + len [] <= 0xff) by (unfold len; cbn; lia).
  unfold chunk, erase_none, erase_separate.
  rewrite !bin_write_ok, !bin_erase_ok by assumption.
  repeat case_bool_decide; cbn [orb negb]; try reflexivity; tauto.
Qed.

Lemma mem2boot_loop_run (ih : loc) (o : IntelHex) (page erase maxaddr recsize : Z)
    (l : list Z) (crc : Z) (s : state) :
  heap s !! ih = Some o -> 1 <= recsize <= 128 -> 0 <= crc < 2 ^ 16 ->
  Forall (fun addr => u16 addr /\ addr <= maxaddr) l ->
  for_fold l crc (mem2boot_chunk ih page erase maxaddr recsize) s
  = (Ok (crc16 (concat (chunk_data o recsize maxaddr <$> l)) crc),
     emit s (concat ((fun addr => chunk page erase addr
                                    (chunk_data o recsize maxaddr addr)) <$> l))).
Proof.
  intros Hih Hrec Hcrc Hl. revert crc s Hih Hcrc.
  induction Hl as [|a l [Ha Hmax] _ IH]; intros crc s Hih Hcrc.
  - cbn. rewrite emit_nil. unfold crc16, crc16_with. cbn [fold_left].
    change 0xffff with (Z.ones 16). rewrite low_mask_small by lia. reflexivity.
  - cbn [for_fold]. erewrite bind_ok by (apply mem2boot_chunk_run; eassumption).
    rewrite IH by (try apply crc16_range; exact Hih).
    rewrite emit_app. cbn [fmap list_fmap concat]. rewrite crc16_app. reflexivity.
Qed.

Lemma addresses_ok (ih : loc) (o : IntelHex) (s : state) :
  heap s !! ih = Some o -> addresses ih s = (Ok (sorted_keys (buf o)), s).
Proof. intros H. unfold addresses. erewrite bind_ok by (apply deref_ok, H). reflexivity. Qed.

(** What [mem2boot] does to the state, for a view within the 16-bit
    address space. *)
Lemma mem2boot_run (ih : loc) (o : IntelHex) (page erase : Z) (s : state) :
  heap s !! ih = Some o -> 1 <= page -> addresses_u16 o ->
  mem2boot ih page erase s = (Ok tt, emit s (records o page erase)).
Proof.
  intros Hih Hp Hu. unfold mem2boot, records.
  erewrite bind_ok by (apply addresses_ok, Hih).
  destruct (sorted_keys (buf o)) as [|first rest] eqn:E.
  { cbn. rewrite emit_nil. reflexivity. }
  apply sorted_keys_bounds in E as [[Hf Hlow] [Hl Hhigh]].
  set (maxaddr := List.last (first :: rest) first) in *.
  pose proof (Hu _ Hf) as Hfu. pose proof (Hu _ Hl) as Hlu. unfold u16 in Hfu, Hlu.
  erewrite bind_ok by (apply int_div_ok; lia).
  pose proof (page_floor_bounds first page ltac:(lia) Hp) as Hfloor.
  erewrite bind_ok.
  2:{ apply (mem2boot_loop_run ih o); [exact Hih | lia | lia |].
      apply Forall_forall. intros a Ha.
      apply elem_of_py_range in Ha as [Ha _]; [|lia]. unfold u16. lia. }
  unfold walk_records. rewrite bin_verify_ok.
  - rewrite brec_write_ok, emit_app. reflexivity.
  - unfold u16. lia.
  - unfold u16. lia.
  - match goal with |- u16 (crc16 ?d 0) => pose proof (crc16_range d 0) end.
    unfold u16. lia.
Qed.

(** C5. For an image view with a populated address (all addresses within
    16 bits) and a page size of at least 1, [mem2boot] walks
    [range(low, high+1, min(128, page))] with [low] the lowest populated
    address rounded down to a page and [high] the highest populated
    address, and emits for each chunk: one Write when the erase mode is
    none or the address is not page-aligned; Erase(addr) then
    Write(addr, data) when the mode is separate and the address is
    page-aligned; one Erase(addr, data), and no Write, when the mode is
    with-data and the address is page-aligned; and after the walk one
    Verify(low, high, checksum), the checksum running over the chunks in
    order. A view with no populated address emits nothing. *)
Theorem mem2boot_records (ih : loc) (o : IntelHex) (page erase : Z) (s : state)
    (first last : Z) :
  heap s !! ih = Some o -> 1 <= page -> addresses_u16 o ->
  lowest_populated o first -> highest_populated o last ->
  let low := first / page * page in
  let step := Z.min 128 page in
  let walk := py_range low (last + 1) step in
  let data := fun addr => tobin_of o addr (addr + Z.min step (last - addr + 1) - 1) in
  let aligned := fun addr => addr `mod` page = 0 in
  mem2boot ih page erase s
  = (Ok tt,
     emit s
       (concat ((fun addr => chunk page erase addr (data addr)) <$> walk)
        ++ Layout.Verify low last (crc16 (concat (data <$> walk)) 0)))
  /\ (forall addr d, erase = erase_none \/ ~ aligned addr ->
        chunk page erase addr d = Layout.Write addr d)
  /\ (forall addr d, erase = erase_separate -> aligned addr ->
        chunk page erase addr d = Layout.Erase addr [] ++ Layout.Write addr d)
  /\ (forall addr d, erase = erase_with_data -> aligned addr ->
        chunk page erase addr d = Layout.Erase addr d)
  /\ (forall addr, addr ∈ walk
        <-> exists i, 0 <= i /\ addr = low + i * step /\ addr <= last)
  /\ (forall ih' o' s', heap s' !! ih' = Some o' -> (forall a, ~ populated o' a) ->
        mem2boot ih' page erase s' = (Ok tt, s')).
Proof.
  intros Hih Hp Hu Hfirst Hlast low step walk data aligned.
  split.
  { rewrite (mem2boot_run ih o) by assumption. unfold records.
    destruct (sorted_keys (buf o)) as [|f rest] eqn:E.
    - apply sorted_keys_nil in E. destruct Hfirst as [[x Hx] _].
      rewrite E, lookup_empty in Hx. discriminate Hx.
    - apply sorted_keys_bounds in E as [Hf Hl].
      pose proof (lowest_populated_unique o f first Hf Hfirst) as ->.
      rewrite (highest_populated_unique o _ last Hl Hlast).
      reflexivity. }
  split.
  { intros addr d H. unfold chunk. rewrite bool_decide_eq_true_2 by exact H.
    reflexivity. }
  split.
  { intros addr d -> Ha. unfold chunk.
    rewrite bool_decide_eq_false_2
      by (intros [Hc|Hc]; [discriminate Hc | exact (Hc Ha)]).
    rewrite bool_decide_eq_true_2 by reflexivity. reflexivity. }
  split.
  { intros addr d -> Ha. unfold chunk.
    rewrite bool_decide_eq_false_2
      by (intros [Hc|Hc]; [discriminate Hc | exact (Hc Ha)]).
    rewrite bool_decide_eq_false_2 by discriminate.
    reflexivity. }
  split.
  { intros addr. apply elem_of_py_range_iff. lia. }
  intros ih' o' s' Hih' Hnone.
  unfold mem2boot. erewrite bind_ok by (apply addresses_ok, Hih').
  destruct (sorted_keys (buf o')) as [|f rest] eqn:E; [reflexivity|].
  apply sorted_keys_bounds in E as [[Hf _] _]. destruct (Hnone _ Hf).
Qed.

Lemma mem2boot_records_witness :
  let o := mkIntelHex (<[0x0201 := x11]> (<[0x0203 := x22]> ∅)) xff in
  let s := mkState [] {[ 1%positive := o ]} in
  mem2boot 1%positive 512 erase_with_data s
  = (Ok tt,
     emit s (Layout.Erase 0x0200 [xff; x11; xff; x22]
             ++ Layout.Verify 0x0200 0x0203 (crc16 [xff; x11; xff; x22] 0))).
Proof.
  intros o s.
  assert (Hk : sorted_keys (buf o) = [0x0201; 0x0203]) by (vm_compute; reflexivity).
  destruct (sorted_keys_bounds o _ _ Hk) as [Hlow Hhigh].
  assert (Hu : addresses_u16 o).
  { intros a Ha. apply elem_of_sorted_keys in Ha. rewrite Hk in Ha.
    apply elem_of_cons in Ha as [->|Ha]; [unfold u16; lia|].
    apply list_elem_of_singleton in Ha as ->. unfold u16; lia. }
  refine (proj1 (mem2boot_records 1%positive o 512 erase_with_data s 0x0201 0x0203
                   _ _ Hu Hlow Hhigh)); [reflexivity | lia].
Defined.

End ImageTranslator.

(** ** Image views: [ih[slice(start, stop)]] *)

Section Views.

Import Translate.

Lemma copy_loop_padding (o : IntelHex) (l : list Z) (acc : IntelHex) :
  padding (fold_left (copy_populated o) l acc) = padding acc.
Proof.
  revert acc. induction l as [|i l IH]; intros acc; [reflexivity|].
  cbn [fold_left]. rewrite IH. unfold copy_populated.
  destruct (buf o !! i); reflexivity.
Qed.

Lemma copy_loop_lookup (o : IntelHex) (l : list Z) (acc : IntelHex) (a : Z) :
  buf (fold_left (copy_populated o) l acc) !! a
  = if decide (a ∈ l)
    then match buf o !! a with Some x => Some x | None => buf acc !! a end
    else buf acc !! a.
Proof.
  revert acc. induction l as [|i l IH]; intros acc.
  - cbn. rewrite decide_False by apply not_elem_of_nil. reflexivity.
  - cbn [fold_left]. rewrite IH. unfold copy_populated.
    destruct (decide (a = i)) as [->|Hne].
    + rewrite (decide_True (P := i ∈ i :: l)) by left.
      destruct (buf o !! i) as [x|] eqn:E; cbn [buf].
      * rewrite lookup_insert_eq. destruct (decide (i ∈ l)); reflexivity.
      * destruct (decide (i ∈ l)); reflexivity.
    + assert (Hin : a ∈ i :: l <-> a ∈ l).
      { rewrite elem_of_cons. tauto. }
      destruct (decide (a ∈ l)) as [Hl|Hl].
      * rewrite decide_True by (apply Hin, Hl).
        destruct (buf o !! a); [reflexivity|].
        destruct (buf o !! i); cbn [buf]; [apply lookup_insert_ne; congruence|reflexivity].
      * rewrite decide_False by (rewrite Hin; exact Hl).
        destruct (buf o !! i); cbn [buf]; [apply lookup_insert_ne; congruence|reflexivity].
Qed.

Lemma py_or_nonzero (a b : Z) : a <> 0 -> py_or a b = a.
Proof. intros H. unfold py_or. rewrite bool_decide_eq_false_2 by exact H. reflexivity. Qed.

Lemma slice_of_padding (o : IntelHex) (start stop : Z) :
  padding (slice_of o start stop) = xff.
Proof.
  unfold slice_of. destruct (sorted_keys (buf o)); [reflexivity|].
  apply (copy_loop_padding o).
Qed.

(** A view holds exactly the populated addresses of [start <= a < stop]
    (for [stop <> 0], which every planned region has, and an image without
    negative addresses). *)
Lemma slice_of_lookup (o : IntelHex) (start stop a : Z) :
  IntelHex_wf o -> 0 <= start -> stop <> 0 ->
  buf (slice_of o start stop) !! a
  = if decide (start <= a < stop) then buf o !! a else None.
Proof.
  intros Hwf Hstart Hstop. unfold slice_of.
  destruct (sorted_keys (buf o)) as [|first rest] eqn:E.
  - apply sorted_keys_nil in E. rewrite E. cbn. rewrite !lookup_empty.
    destruct (decide _); reflexivity.
  - apply sorted_keys_bounds in E as [[Hf Hlow] _].
    rewrite copy_loop_lookup. cbn [IntelHex_empty buf].
    rewrite lookup_empty, py_range_unit.
    rewrite (py_or_nonzero stop) by exact Hstop.
    assert (Hfirst : 0 <= first) by (apply Hwf, Hf).
    destruct (decide (a ∈ _)) as [Hin|Hin].
    + apply elem_of_seqZ in Hin. unfold py_or in Hin.
      rewrite decide_True; [destruct (buf o !! a); reflexivity|].
      case_bool_decide; lia.
    + rewrite elem_of_seqZ in Hin. unfold py_or in Hin.
      destruct (decide (start <= a < stop)) as [Hr|Hr]; [|reflexivity].
      destruct (buf o !! a) as [x|] eqn:Ea; [|reflexivity].
      assert (first <= a) by (apply Hlow; unfold populated; eauto).
      case_bool_decide; lia.
Qed.

(** The bound [stop] itself is never part of a view. *)
Lemma slice_of_excludes_stop (o : IntelHex) (start stop : Z) :
  IntelHex_wf o -> 0 <= start -> stop <> 0 ->
  buf (slice_of o start stop) !! stop = None.
Proof.
  intros Hwf Hs Hstop. rewrite slice_of_lookup by assumption.
  rewrite decide_False by lia. reflexivity.
Qed.

Lemma slice_of_u16 (o : IntelHex) (start stop : Z) :
  IntelHex_wf o -> 0 <= start -> 0 < stop <= 0xffff ->
  addresses_u16 (slice_of o start stop).
Proof.
  intros Hwf Hs Hstop a [x Ha]. rewrite slice_of_lookup in Ha by (done || lia).
  destruct (decide (start <= a < stop)); [|discriminate Ha]. unfold u16. lia.
Qed.

End Views.

(** ** The objects a session leaves alone *)

Section Frame.

Variable h0 : gmap loc IntelHex.

Lemma keeps_ret {A} (a : A) (Q : A -> Prop) : Q a -> keeps h0 (ret a) Q.
Proof. intros HQ s Hs. cbn. split; [exact Hs|]. intros a' [= <-]. exact HQ. Qed.

Lemma keeps_raise {A} (e : exn) (Q : A -> Prop) : keeps h0 (raise e) Q.
Proof. intros s Hs. cbn. split; [exact Hs|]. intros a [=]. Qed.

Lemma keeps_bind {A B} (m : M A) (k : A -> M B) (Q : A -> Prop) (R : B -> Prop) :
  keeps h0 m Q -> (forall a, Q a -> keeps h0 (k a) R) -> keeps h0 (bind m k) R.
Proof.
  intros Hm Hk s Hs. destruct (Hm s Hs) as [Hs' HQ]. unfold bind.
  destruct (m s) as [[a|e] s']; cbn [fst snd] in *.
  - apply Hk; [apply HQ; reflexivity | exact Hs'].
  - split; [exact Hs'|]. intros b [=].
Qed.

Lemma keeps_weaken {A} (m : M A) (Q Q' : A -> Prop) :
  keeps h0 m Q -> (forall a, Q a -> Q' a) -> keeps h0 m Q'.
Proof. intros Hm HQ s Hs. destruct (Hm s Hs) as [Hs' Ha]. split; auto. Qed.

Lemma keeps_brec_write (b : option bytes) : keeps h0 (brec_write b) (fun _ => True).
Proof. intros s Hs. unfold brec_write. destruct b; cbn; auto. Qed.

Lemma keeps_deref (l : loc) : keeps h0 (deref l) (fun _ => True).
Proof. intros s Hs. unfold deref. destruct (heap s !! l); cbn; auto. Qed.

Lemma keeps_int_div (a b : Z) : keeps h0 (int_div a b) (fun _ => True).
Proof.
  unfold int_div. case_bool_decide; [apply keeps_raise | apply keeps_ret; exact I].
Qed.

(** A new object has a reference none of the kept objects has. *)
Lemma keeps_alloc (o : IntelHex) : keeps h0 (alloc o) (fun l => h0 !! l = None).
Proof.
  intros s Hs. unfold alloc. cbn.
  assert (Hfresh : heap s !! fresh (dom (heap s)) = None).
  { apply not_elem_of_dom, is_fresh. }
  split.
  - apply insert_subseteq_r; [|exact Hs].
    destruct (h0 !! fresh (dom (heap s))) as [x|] eqn:E; [|reflexivity].
    rewrite (lookup_weaken _ _ _ _ E Hs) in Hfresh. discriminate Hfresh.
  - intros l [= <-].
    destruct (h0 !! fresh (dom (heap s))) as [x|] eqn:E; [|reflexivity].
    rewrite (lookup_weaken _ _ _ _ E Hs) in Hfresh. discriminate Hfresh.
Qed.

(** Writing to an object that is not one of the kept ones. *)
Lemma keeps_store (l : loc) (o : IntelHex) :
  h0 !! l = None -> keeps h0 (store l o) (fun _ => True).
Proof.
  intros Hl s Hs. unfold store. cbn. split; [|auto].
  apply insert_subseteq_r; assumption.
Qed.

Lemma keeps_for_each {A} (l : list A) (body : A -> M unit) :
  (forall x, keeps h0 (body x) (fun _ => True)) ->
  keeps h0 (for_each l body) (fun _ => True).
Proof.
  intros Hb. induction l as [|x l IH]; cbn [for_each].
  - apply keeps_ret. exact I.
  - eapply keeps_bind; [apply Hb|]. intros _ _. exact IH.
Qed.

Lemma keeps_for_fold {A S} (l : list A) (acc : S) (body : S -> A -> M S) :
  (forall acc x, keeps h0 (body acc x) (fun _ => True)) ->
  keeps h0 (for_fold l acc body) (fun _ => True).
Proof.
  intros Hb. revert acc. induction l as [|x l IH]; intros acc; cbn [for_fold].
  - apply keeps_ret. exact I.
  - eapply keeps_bind; [apply Hb|]. intros acc' _. apply IH.
Qed.

Lemma keeps_IntelHex_init (source : loc) :
  keeps h0 (IntelHex_init source) (fun l => h0 !! l = None).
Proof.
  unfold IntelHex_init. eapply keeps_bind; [apply keeps_deref|].
  intros o _. apply keeps_alloc.
Qed.

Lemma keeps_getitem (ih : loc) (addr : Z) : keeps h0 (getitem ih addr) (fun _ => True).
Proof.
  unfold getitem. eapply keeps_bind; [apply keeps_deref|]. intros o _.
  case_bool_decide; [apply keeps_raise | apply keeps_ret; exact I].
Qed.

Lemma keeps_setitem (ih : loc) (addr : Z) (b : byte) :
  h0 !! ih = None -> keeps h0 (setitem ih addr b) (fun _ => True).
Proof.
  intros Hih. unfold setitem. eapply keeps_bind; [apply keeps_deref|]. intros o _.
  case_bool_decide; [apply keeps_raise | apply keeps_store, Hih].
Qed.

Lemma keeps_getitem_slice (ih : loc) (start stop : Z) :
  keeps h0 (getitem_slice ih start stop) (fun _ => True).
Proof.
  unfold getitem_slice. eapply keeps_bind; [apply keeps_deref|]. intros o _.
  eapply keeps_weaken; [apply keeps_alloc|]. auto.
Qed.

Lemma keeps_tobinstr (ih : loc) (start size : Z) :
  keeps h0 (tobinstr ih start size) (fun _ => True).
Proof.
  unfold tobinstr. eapply keeps_bind; [apply keeps_deref|]. intros o _.
  case_bool_decide; [apply keeps_raise | apply keeps_ret; exact I].
Qed.

Lemma keeps_mem2boot (ih : loc) (page erase : Z) :
  keeps h0 (mem2boot ih page erase) (fun _ => True).
Proof.
  unfold mem2boot, addresses.
  eapply keeps_bind.
  { eapply keeps_bind; [apply keeps_deref|]. intros o _.
    apply (keeps_ret _ (fun _ => True)). exact I. }
  intros addrs _. destruct addrs as [|first rest]; [apply keeps_ret; exact I|].
  eapply keeps_bind; [apply keeps_int_div|]. intros q _.
  eapply keeps_bind.
  { apply keeps_for_fold. intros crc addr. unfold mem2boot_chunk.
    eapply keeps_bind; [apply keeps_tobinstr|]. intros data _.
    eapply keeps_bind; [apply keeps_brec_write|]. intros _ _.
    apply (keeps_ret _ (fun _ => True)). exact I. }
  intros crc _. apply keeps_brec_write.
Qed.

Lemma keeps_erase2boot (start stop page : Z) :
  keeps h0 (erase2boot start stop page) (fun _ => True).
Proof.
  unfold erase2boot. eapply keeps_bind; [apply keeps_int_div|]. intros q _.
  eapply keeps_bind.
  { apply keeps_for_each. intros addr. apply keeps_brec_write. }
  intros _ _. apply keeps_brec_write.
Qed.

(** A whole session: the only object it assigns to is the one it created. *)
Lemma keeps_hex2boot (args : Args) : keeps h0 (hex2boot args) (fun _ => True).
Proof.
  unfold hex2boot.
  eapply keeps_bind.
  { apply keeps_for_each. intros blid. apply keeps_brec_write. }
  intros _ _. eapply keeps_bind; [apply keeps_brec_write|]. intros _ _.
  eapply keeps_bind.
  { destruct (args_hexfile args) as [source|].
    - eapply keeps_bind; [apply keeps_IntelHex_init|]. intros ih Hih.
      eapply keeps_bind; [apply keeps_getitem|]. intros resetv _.
      eapply keeps_bind.
      { destruct (_ && _); [apply keeps_setitem, Hih | apply keeps_ret; exact I]. }
      intros _ _. eapply keeps_bind.
      { apply keeps_for_each. intros [[start stop] page].
        eapply keeps_bind; [apply keeps_getitem_slice|]. intros view _.
        apply keeps_mem2boot. }
      intros _ _.
      destruct (_ && _); [apply keeps_brec_write | apply keeps_ret; exact I].
    - destruct (args_lock args); [apply (keeps_ret _ (fun _ => True)); exact I|].
      apply keeps_for_each. intros [[start stop] page]. apply keeps_erase2boot. }
  intros _ _. eapply keeps_bind.
  { destruct (args_lock args);
      [apply keeps_brec_write | apply (keeps_ret _ (fun _ => True)); exact I]. }
  intros _ _.
  destruct (args_wait args); [apply keeps_ret; exact I | apply keeps_brec_write].
Qed.

End Frame.

(** ** A session on an image *)

Section Session.

Import Translate.

Lemma idents_run (ids : list Z) (s : state) :
  Forall u16 ids ->
  for_each ids (fun blid => brec_write (bin_ident blid)) s
  = (Ok tt, emit s (concat (Layout.Identity <$> ids))).
Proof.
  intros H. revert s. induction H as [|blid ids Hb _ IH]; intros s.
  - cbn. rewrite emit_nil. reflexivity.
  - cbn [for_each]. erewrite bind_ok
      by (rewrite bin_ident_ok by exact Hb; apply brec_write_ok).
    rewrite IH, emit_app. reflexivity.
Qed.

Lemma getitem_slice_ok (ih : loc) (o : IntelHex) (start stop : Z) (s : state) :
  heap s !! ih = Some o ->
  getitem_slice ih start stop s
  = (Ok (fresh (dom (heap s))),
     mkState (brec s) (<[fresh (dom (heap s)) := slice_of o start stop]> (heap s))).
Proof.
  intros H. unfold getitem_slice. erewrite bind_ok by (apply deref_ok, H).
  reflexivity.
Qed.

Lemma fresh_not_alive (s : state) : heap s !! fresh (dom (heap s)) = None.
Proof. apply not_elem_of_dom, is_fresh. Qed.

(** The loop over the planned regions: each view is translated in turn;
    the image [ih] refers to is not touched. *)
Lemma image_regions_run (ih : loc) (o : IntelHex) (erase : Z) (rs : list region)
    (s : state) :
  heap s !! ih = Some o -> IntelHex_wf o ->
  Forall (fun r : region => 0 <= r.1.1 /\ 0 < r.1.2 <= 0xffff /\ 1 <= r.2) rs ->
  exists s',
    for_each rs
      (fun '(start, stop, page) =>
         view <- getitem_slice ih start stop ;;
         mem2boot view page erase) s = (Ok tt, s')
    /\ brec s' = brec s
                 ++ concat ((fun r : region => records (slice_of o r.1.1 r.1.2) r.2 erase)
                              <$> rs)
    /\ heap s' !! ih = Some o.
Proof.
  intros Hih Hwf Hrs. revert s Hih.
  induction Hrs as [|[[start stop] page] rs (H1 & H2 & H3) _ IH]; intros s Hih.
  - exists s. cbn. rewrite app_nil_r. auto.
  - cbn [fst snd] in *. cbn [for_each].
    set (l := fresh (dom (heap s))).
    set (view := slice_of o start stop).
    set (s1 := mkState (brec s) (<[l := view]> (heap s))).
    assert (Hl : heap s !! l = None) by apply fresh_not_alive.
    assert (Hne : l <> ih) by congruence.
    assert (Hrun : (view <- getitem_slice ih start stop ;; mem2boot view page erase) s
                   = (Ok tt, emit s1 (records view page erase))).
    { erewrite bind_ok by (apply getitem_slice_ok, Hih).
      apply mem2boot_run; [apply lookup_insert_eq | exact H3 |].
      apply slice_of_u16; [exact Hwf | lia | lia]. }
    erewrite bind_ok by exact Hrun.
    destruct (IH (emit s1 (records view page erase))) as (s' & Hs' & Hb & Hh).
    { cbn. rewrite lookup_insert_ne by exact Hne. exact Hih. }
    exists s'. split; [exact Hs'|]. split; [|exact Hh].
    rewrite Hb. cbn. rewrite <- app_assoc. reflexivity.
Qed.

Lemma concat_chunk_list (page erase addr : Z) (data : bytes) :
  concat (chunk_list page erase addr data) = chunk page erase addr data.
Proof.
  unfold chunk_list, chunk. repeat case_bool_decide; cbn [concat];
    rewrite ?app_nil_r; reflexivity.
Qed.

Lemma concat_chunk_lists (page erase : Z) (data : Z -> bytes) (l : list Z) :
  concat (concat ((fun addr => chunk_list page erase addr (data addr)) <$> l))
  = concat ((fun addr => chunk page erase addr (data addr)) <$> l).
Proof.
  induction l as [|a l IH]; [reflexivity|].
  cbn [fmap list_fmap concat]. fold (@fmap list _ Z bytes).
  fold (@fmap list _ Z (list bytes)).
  rewrite concat_app, concat_chunk_list, IH. reflexivity.
Qed.

(** The record list is the output cut into its records. *)
Lemma concat_record_list (o : IntelHex) (page erase : Z) :
  concat (record_list o page erase) = records o page erase.
Proof.
  unfold record_list, records. destruct (sorted_keys (buf o)); [reflexivity|].
  unfold walk_records. rewrite concat_app, concat_chunk_lists. cbn [concat].
  rewrite app_nil_r. reflexivity.
Qed.

(** The records of a view that shows [0xFF] at address 0 (or does not
    hold address 0, which reads as the padding [0xFF]) are records of a
    failsafe translation. *)
Lemma chunks_failsafe (o : IntelHex) (page erase step high : Z) (l : list Z) :
  padding o = xff -> (forall x, buf o !! 0 = Some x -> x = xff) ->
  Forall u16 l ->
  Forall failsafe_record
    (concat ((fun addr => chunk_list page erase addr (chunk_data o step high addr))
               <$> l)).
Proof.
  intros Hpad H0 Hl. induction Hl as [|a l Ha _ IH]; [constructor|].
  assert (Hff : shows_ff_at_0 a (chunk_data o step high a)).
  { intros Hcov. unfold u16 in Ha. assert (a = 0) as -> by lia.
    change (Z.to_nat (0 - 0)) with 0%nat.
    unfold chunk_data in *. unfold len in Hcov. rewrite tobin_of_length in Hcov.
    rewrite tobin_of_lookup by lia. change (0 + Z.of_nat 0) with 0. f_equal.
    rewrite Hpad. destruct (buf o !! 0) as [x|] eqn:Ex; [|reflexivity].
    cbn. apply H0. reflexivity. }
  assert (Hnil : shows_ff_at_0 a []).
  { intros Hcov. unfold len in Hcov. cbn in Hcov. lia. }
  cbn [fmap list_fmap concat]. fold (@fmap list _ Z (list bytes)).
  apply Forall_app. split; [|exact IH].
  unfold chunk_list. repeat case_bool_decide;
    repeat (constructor; try assumption).
Qed.

Lemma records_failsafe (o : IntelHex) (page erase : Z) :
  1 <= page -> padding o = xff -> addresses_u16 o ->
  (forall x, buf o !! 0 = Some x -> x = xff) ->
  Forall failsafe_record (record_list o page erase).
Proof.
  intros Hp Hpad Hu H0. unfold record_list.
  destruct (sorted_keys (buf o)) as [|first rest] eqn:E; [constructor|].
  apply sorted_keys_bounds in E as [[Hf _] [Hl _]].
  pose proof (Hu _ Hf) as Hfu. pose proof (Hu _ Hl) as Hlu. unfold u16 in Hfu, Hlu.
  pose proof (page_floor_bounds first page ltac:(lia) Hp) as Hfloor.
  cbv zeta. apply Forall_app. split.
  - apply chunks_failsafe; [exact Hpad | exact H0 |].
    apply Forall_forall. intros a Ha.
    apply elem_of_py_range in Ha as [Ha _]; [|lia]. unfold u16. lia.
  - repeat constructor.
Qed.

Lemma planned_regions_ok (args : Args) :
  0 <= args_start args ->
  Forall (fun r : region => 0 <= r.1.1 /\ r.1.1 < r.1.2 <= 0xffff /\ 1 <= r.2)
         (get_regions (args_start args) (args_top args) (args_map args)).
Proof.
  intros Hs. eapply Forall_impl.
  - apply (get_regions_of_ok (args_start args) (args_top args)); [exact Hs|].
    apply regions_ok.
  - intros r (H1 & H2 & H3 & H4 & H5). lia.
Qed.

End Session.

Section SessionRun.

Import Translate Session.

Lemma IntelHex_init_ok (source : loc) (img : IntelHex) (s : state) :
  heap s !! source = Some img ->
  IntelHex_init source s
  = (Ok (fresh (dom (heap s))),
     mkState (brec s)
       (<[fresh (dom (heap s)) := mkIntelHex (buf img) (padding img)]> (heap s))).
Proof.
  intros H. unfold IntelHex_init. erewrite bind_ok by (apply deref_ok, H).
  reflexivity.
Qed.

Lemma getitem_ok (ih : loc) (o : IntelHex) (addr : Z) (s : state) :
  heap s !! ih = Some o -> 0 <= addr ->
  getitem ih addr s = (Ok (default (padding o) (buf o !! addr)), s).
Proof.
  intros H Ha. unfold getitem. erewrite bind_ok by (apply deref_ok, H).
  rewrite bool_decide_eq_false_2 by lia. reflexivity.
Qed.

Lemma setitem_ok (ih : loc) (o : IntelHex) (addr : Z) (b : byte) (s : state) :
  heap s !! ih = Some o -> 0 <= addr ->
  setitem ih addr b s
  = (Ok tt, mkState (brec s)
              (<[ih := mkIntelHex (<[addr := b]> (buf o)) (padding o)]> (heap s))).
Proof.
  intros H Ha. unfold setitem. erewrite bind_ok by (apply deref_ok, H).
  rewrite bool_decide_eq_false_2 by lia. reflexivity.
Qed.

Lemma wf_copy (img : IntelHex) :
  IntelHex_wf img -> IntelHex_wf (mkIntelHex (buf img) (padding img)).
Proof. intros H. exact H. Qed.

Lemma wf_override (img : IntelHex) :
  IntelHex_wf img -> IntelHex_wf (mkIntelHex (<[0 := xff]> (buf img)) (padding img)).
Proof.
  intros H a [x Ha]. cbn [buf] in Ha.
  destruct (decide (a = 0)) as [->|Hne]; [lia|].
  rewrite lookup_insert_ne in Ha by congruence. apply H. eauto.
Qed.

(** The branch of [hex2boot] for a given hex file. *)
Lemma image_part_run (fs : bool) (rs : list region) (erase : Z) (source : loc)
    (img : IntelHex) (s : state) :
  heap s !! source = Some img -> IntelHex_wf img ->
  Forall (fun r : region => 0 <= r.1.1 /\ 0 < r.1.2 <= 0xffff /\ 1 <= r.2) rs ->
  let resetv := reset_vector img in
  let ov := fs && negb (bool_decide (resetv = xff)) in
  let work := if ov then mkIntelHex (<[0 := xff]> (buf img)) (padding img)
              else mkIntelHex (buf img) (padding img) in
  exists s',
    (ih <- IntelHex_init source ;;
     resetv <- getitem ih 0 ;;
     (if fs && negb (bool_decide (resetv = xff))
      then setitem ih 0 xff else ret tt) ;;;
     for_each rs
       (fun '(start, stop, page) =>
          view <- getitem_slice ih start stop ;;
          mem2boot view page erase) ;;;
     (if fs && negb (bool_decide (resetv = xff))
      then brec_write (bin_write 0 [resetv]) else ret tt)) s = (Ok tt, s')
    /\ brec s' = brec s
                 ++ concat ((fun r : region =>
                               records (slice_of work r.1.1 r.1.2) r.2 erase) <$> rs)
                 ++ (if ov then Layout.Write 0 [resetv] else [])
    /\ heap s' !! fresh (dom (heap s)) = Some work.
Proof.
  intros Hsrc Hwf Hrs resetv ov work.
  set (ih := fresh (dom (heap s))).
  set (copy := mkIntelHex (buf img) (padding img)).
  set (s1 := mkState (brec s) (<[ih := copy]> (heap s))).
  assert (H1 : heap s1 !! ih = Some copy) by apply lookup_insert_eq.
  assert (exists s2, (if ov then setitem ih 0 xff else ret tt) s1 = (Ok tt, s2)
                     /\ brec s2 = brec s /\ heap s2 !! ih = Some work)
    as (s2 & Hset & Hb2 & Hh2).
  { unfold work. destruct ov.
    - eexists. split; [apply (setitem_ok ih copy); [exact H1 | lia]|].
      split; [reflexivity | apply lookup_insert_eq].
    - exists s1. split; [reflexivity|]. split; [reflexivity | exact H1]. }
  assert (Hwork : IntelHex_wf work).
  { unfold work. destruct ov; [apply wf_override | apply wf_copy]; exact Hwf. }
  destruct (image_regions_run ih work erase rs s2 Hh2 Hwork Hrs)
    as (s3 & Hloop & Hb3 & Hh3).
  erewrite bind_ok by (apply IntelHex_init_ok, Hsrc).
  erewrite bind_ok by (apply (getitem_ok ih copy); [exact H1 | lia]).
  change (default (padding copy) (buf copy !! 0)) with resetv.
  fold ov. erewrite bind_ok by exact Hset.
  erewrite bind_ok by exact Hloop.
  destruct ov eqn:Eov.
  - rewrite bin_write_ok by (unfold u16, len; cbn; lia).
    rewrite brec_write_ok. eexists. split; [reflexivity|].
    split; [|exact Hh3]. cbn. rewrite Hb3, Hb2, <- app_assoc. reflexivity.
  - exists s3. split; [reflexivity|]. split; [|exact Hh3].
    rewrite Hb3, Hb2, app_nil_r. reflexivity.
Qed.

(** A whole session on an image, for arguments the command line lets
    through: it completes, and writes the opening records, the main
    translation of the working image, the restoring Write when the reset
    vector was overridden, and the closing records. *)
Lemma hex2boot_image_run (args : Args) (source : loc) (img : IntelHex) (s : state) :
  args_hexfile args = Some source -> heap s !! source = Some img ->
  IntelHex_wf img -> args_ok args ->
  exists s',
    hex2boot args s = (Ok tt, s')
    /\ brec s' = brec s ++ opening args ++ main_translation args img
                 ++ restore args img ++ closing args
    /\ heap s' !! fresh (dom (heap s)) = Some (working_image args img).
Proof.
  intros Hfile Hsrc Hwf (Hids & Hbank & Hstart & Hlock).
  unfold hex2boot. cbv zeta. rewrite Hfile.
  erewrite bind_ok by (apply idents_run, Hids).
  erewrite bind_ok
    by (rewrite bin_setup_ok by (done || (unfold u16, keys_default; lia));
        apply brec_write_ok).
  rewrite emit_app. fold (opening args). fold (failsafe args).
  destruct (image_part_run (failsafe args)
              (get_regions (args_start args) (args_top args) (args_map args))
              (args_erase args) source img (emit s (opening args)))
    as (s1 & Hrun & Hb1 & Hh1); [exact Hsrc | exact Hwf | |].
  { eapply Forall_impl.
    - apply (get_regions_of_ok (args_start args) (args_top args)); [exact Hstart|].
      apply regions_ok.
    - intros r (H1 & H2 & H3 & H4 & H5). lia. }
  erewrite bind_ok by exact Hrun.
  fold (reset_vector img) in Hb1, Hh1. fold (override args img) in Hb1, Hh1.
  fold (working_image args img) in Hb1, Hh1.
  fold (main_translation args img) in Hb1. fold (restore args img) in Hb1.
  assert (exists s2,
            match args_lock args with
            | Some lock => brec_write (bin_lock lock)
            | None => ret tt
            end s1 = (Ok tt, s2)
            /\ s2 = emit s1 match args_lock args with
                            | Some lock => Layout.Lock lock
                            | None => []
                            end) as (s2 & Hl & ->).
  { destruct (args_lock args) as [lock|].
    - rewrite bin_lock_ok by (apply Hlock; reflexivity). eexists. split; reflexivity.
    - exists s1. rewrite emit_nil. split; reflexivity. }
  erewrite bind_ok by exact Hl.
  unfold closing. destruct (args_wait args).
  - eexists. split; [reflexivity|]. split; [|exact Hh1].
    rewrite brec_emit, Hb1, brec_emit, app_nil_r, <- !app_assoc. reflexivity.
  - rewrite bin_runapp_ok by (unfold u16; lia). rewrite brec_write_ok.
    eexists. split; [reflexivity|]. split; [|exact Hh1].
    rewrite !brec_emit, Hb1, brec_emit, <- !app_assoc. reflexivity.
Qed.

End SessionRun.

(** ** The session: failsafe rule, caller's image, region ends *)

Section SessionTheorems.

Import Translate Session.

Lemma image_of_populated (l : list (Z * byte)) (a : Z) :
  populated (image_of l) a -> a ∈ l.*1.
Proof.
  intros [x H]. unfold image_of in H. cbn [buf] in H.
  apply elem_of_list_to_map_2 in H. apply list_elem_of_fmap. exists (a, x). auto.
Qed.

Lemma image_of_wf (l : list (Z * byte)) :
  Forall (fun a => 0 <= a) l.*1 -> IntelHex_wf (image_of l).
Proof.
  intros H a Ha. apply image_of_populated in Ha.
  rewrite Forall_forall in H. apply H, Ha.
Qed.

Lemma image_of_u16 (l : list (Z * byte)) :
  Forall u16 l.*1 -> addresses_u16 (image_of l).
Proof.
  intros H a Ha. apply image_of_populated in Ha.
  rewrite Forall_forall in H. apply H, Ha.
Qed.

Lemma concat_main_records (args : Args) (img : IntelHex) :
  concat (main_records args img) = main_translation args img.
Proof.
  unfold main_records, main_translation.
  induction (get_regions _ _ _) as [|r rs IH]; [reflexivity|].
  cbn [fmap list_fmap concat]. fold (@fmap list _ region bytes).
  fold (@fmap list _ region (list bytes)).
  rewrite concat_app, concat_record_list, IH. reflexivity.
Qed.

Lemma views_failsafe (work : IntelHex) (erase : Z) (rs : list region) :
  IntelHex_wf work -> buf work !! 0 = Some xff ->
  Forall (fun r : region => 0 <= r.1.1 /\ 0 < r.1.2 <= 0xffff /\ 1 <= r.2) rs ->
  Forall failsafe_record
    (concat ((fun r : region => record_list (slice_of work r.1.1 r.1.2) r.2 erase)
               <$> rs)).
Proof.
  intros Hwf H0 Hrs.
  induction Hrs as [|[[start stop] page] rs (H1 & H2 & H3) _ IH]; [constructor|].
  cbn [fst snd] in *. cbn [fmap list_fmap concat fst snd].
  fold (@fmap list _ region (list bytes)).
  apply Forall_app. split; [|exact IH].
  apply records_failsafe.
  - exact H3.
  - apply slice_of_padding.
  - apply slice_of_u16; [exact Hwf | lia | lia].
  - intros x Hx. rewrite slice_of_lookup in Hx by (done || lia).
    destruct (decide _); [congruence | discriminate Hx].
Qed.

(** A failsafe record read back: the address and data it was built from
    show 0xFF for address 0. *)
Lemma failsafe_record_data (r : bytes) (addr : Z) (data : bytes) :
  failsafe_record r -> u16 addr ->
  r = Layout.Write addr data \/ r = Layout.Erase addr data ->
  shows_ff_at_0 addr data.
Proof.
  intros Hr Haddr Heq.
  assert (Hinj : forall ty a d, u16 a ->
            Layout.record ty (Layout.be16 a ++ d)
            = Layout.record ty (Layout.be16 addr ++ data) -> a = addr /\ d = data).
  { intros ty a d Ha E. unfold Layout.record, Layout.be16 in E. cbn [app] in E.
    injection E as _ Hhi Hlo Hd. split; [|exact Hd].
    apply be16_inj; [assumption..|]. unfold Layout.be16. congruence. }
  destruct Hr as [a d Ha Hs | a d Ha Hs | org end_ crc].
  - destruct Heq as [E|E].
    + apply Hinj in E as [-> ->]; assumption.
    + unfold Layout.Write, Layout.Erase, Layout.record in E. cbn [app] in E.
      discriminate E.
  - destruct Heq as [E|E].
    + unfold Layout.Write, Layout.Erase, Layout.record in E. cbn [app] in E.
      discriminate E.
    + apply Hinj in E as [-> ->]; assumption.
  - destruct Heq as [E|E];
      unfold Layout.Write, Layout.Erase, Layout.Verify, Layout.record in E;
      cbn [app] in E; discriminate E.
Qed.

Lemma elem_of_concat_head {A} (x : A) (l : list A) (ls : list (list A)) :
  x ∈ l -> x ∈ concat (l :: ls).
Proof. intros H. cbn [concat]. apply elem_of_app. left. exact H. Qed.

(** The translation of a view that holds address 0 starts at address 0:
    one of its records is a Write or an Erase for address 0, with the byte
    of address 0 first. *)
Lemma record_list_at_0 (o : IntelHex) (page erase : Z) (b : byte) :
  IntelHex_wf o -> buf o !! 0 = Some b -> padding o = xff -> 1 <= page ->
  exists r data,
    r ∈ record_list o page erase
    /\ (r = Layout.Write 0 data \/ r = Layout.Erase 0 data)
    /\ data !! 0%nat = Some b.
Proof.
  intros Hwf H0 Hpad Hp. unfold record_list.
  destruct (sorted_keys (buf o)) as [|first rest] eqn:E.
  { apply sorted_keys_nil in E. rewrite E, lookup_empty in H0. discriminate H0. }
  apply sorted_keys_bounds in E as [[Hf Hlow] [Hl Hhigh]].
  assert (Hpop : populated o 0) by (unfold populated; eauto).
  assert (first = 0) as ->.
  { pose proof (Hlow 0 Hpop). pose proof (Hwf first Hf). lia. }
  set (high := List.last (0 :: rest) 0) in *.
  assert (Hh : 0 <= high) by (apply Hhigh, Hpop).
  cbv zeta. change (0 / page * page) with (0 / page * page).
  rewrite Z.div_0_l by lia. change (0 * page) with 0.
  destruct (py_range_nonempty 0 (high + 1) (Z.min 128 page)) as [walk Hwalk]; [lia..|].
  rewrite Hwalk. cbn [fmap list_fmap]. fold (@fmap list _ Z (list bytes)).
  set (d0 := chunk_data o (Z.min 128 page) high 0).
  assert (Hd0 : d0 !! 0%nat = Some b).
  { unfold d0, chunk_data. rewrite tobin_of_lookup by lia.
    change (0 + Z.of_nat 0) with 0. rewrite H0. reflexivity. }
  assert (Hin : exists r, r ∈ chunk_list page erase 0 d0
                  /\ (r = Layout.Write 0 d0 \/ r = Layout.Erase 0 d0)).
  { unfold chunk_list. repeat case_bool_decide.
    - exists (Layout.Write 0 d0). split; [left | left; reflexivity].
    - exists (Layout.Write 0 d0). split; [right; left | left; reflexivity].
    - exists (Layout.Erase 0 d0). split; [left | right; reflexivity]. }
  destruct Hin as (r & Hr & Hk). exists r, d0. split; [|auto].
  apply elem_of_app. left. apply elem_of_concat_head, Hr.
Qed.

Lemma first_region_at_0 (top : Z) (type : option string) :
  0 < top ->
  exists stop page rs,
    get_regions 0 top type = (0, stop, page) :: rs /\ 0 < stop <= 0xffff /\ 1 <= page.
Proof.
  intros Htop. unfold get_regions.
  destruct (regions_cases type) as [-> | [-> | [-> | [-> | ->]]]];
    cbn [get_regions_of]; rewrite bool_decide_eq_true_2 by lia;
    change (Z.max 0 0) with 0; eexists _, _, _; (split; [reflexivity | lia]).
Qed.

(** C4. A session on an image with bank 0, window start 0 and the byte
    0x20 at address 0 completes. The object it translates from is the
    image with 0xFF at address 0, and its output is: the Identity and
    Setup records; the records of the main translation, where every
    Write or Erase record whose data covers address 0 carries 0xFF at the
    offset of address 0 (and, when the window is not empty, there is such
    a record for address 0, with 0xFF first), so that no record of the
    main translation is a Write of 0x20 to address 0; then one Write
    record for address 0 with the single byte 0x20; then the Lock record,
    if a lock value is given, and the RunApp record, unless waiting is
    asked for. *)
Theorem hex2boot_failsafe (args : Args) (source : loc) (img : IntelHex) (s : state) :
  args_hexfile args = Some source -> heap s !! source = Some img ->
  IntelHex_wf img -> args_ok args ->
  args_bank args = 0 -> args_start args = 0 -> reset_vector img = x20 ->
  let work := mkIntelHex (<[0 := xff]> (buf img)) (padding img) in
  let main :=
    concat ((fun r : region =>
               record_list (slice_of work r.1.1 r.1.2) r.2 (args_erase args))
              <$> get_regions 0 (args_top args) (args_map args)) in
  exists s',
    hex2boot args s = (Ok tt, s')
    /\ heap s' !! fresh (dom (heap s)) = Some work
    /\ brec s'
       = brec s
         ++ (concat (Layout.Identity <$> args_id args) ++ Layout.Setup keys_default 0)
         ++ concat main
         ++ Layout.Write 0 [x20]
         ++ (match args_lock args with
             | Some lock => Layout.Lock lock
             | None => []
             end
             ++ (if args_wait args then [] else Layout.RunApp 0))
    /\ (forall r addr data,
          r ∈ main -> u16 addr ->
          r = Layout.Write addr data \/ r = Layout.Erase addr data ->
          addr <= 0 < addr + len data ->
          data !! Z.to_nat (0 - addr) = Some xff)
    /\ (Layout.Write 0 [x20] ∉ main)
    /\ (0 < args_top args ->
        exists r data,
          r ∈ main /\ (r = Layout.Write 0 data \/ r = Layout.Erase 0 data)
          /\ data !! 0%nat = Some xff).
Proof.
  intros Hfile Hsrc Hwf Hok Hbank Hstart Hrv work main.
  destruct (hex2boot_image_run args source img s Hfile Hsrc Hwf Hok)
    as (s' & Hrun & Hb & Hh).
  assert (Hov : override args img = true).
  { unfold override, failsafe. rewrite Hrv, !bool_decide_eq_true_2 by assumption.
    reflexivity. }
  assert (Hwork : working_image args img = work).
  { unfold working_image. rewrite Hov. reflexivity. }
  assert (Hmain : main_records args img = main).
  { unfold main_records. rewrite Hwork, Hstart. reflexivity. }
  assert (Hwfw : IntelHex_wf work) by (apply wf_override, Hwf).
  assert (Hw0 : buf work !! 0 = Some xff) by apply lookup_insert_eq.
  assert (Hfs : Forall failsafe_record main).
  { apply views_failsafe; [exact Hwfw | exact Hw0 |].
    rewrite <- Hstart. eapply Forall_impl.
    - apply planned_regions_ok. destruct Hok as (_ & _ & H & _). exact H.
    - intros r (H1 & H2 & H3). lia. }
  assert (Hdata : forall r addr data,
            r ∈ main -> u16 addr ->
            r = Layout.Write addr data \/ r = Layout.Erase addr data ->
            addr <= 0 < addr + len data ->
            data !! Z.to_nat (0 - addr) = Some xff).
  { intros r addr data Hr Ha Hk. rewrite Forall_forall in Hfs.
    exact (failsafe_record_data r addr data (Hfs r Hr) Ha Hk). }
  exists s'. split; [exact Hrun|]. split; [rewrite <- Hwork; exact Hh|].
  split.
  { rewrite Hb, <- concat_main_records, Hmain.
    unfold restore, opening, closing. rewrite Hov, Hrv, Hbank. reflexivity. }
  split; [exact Hdata|]. split.
  { intros Hin.
    assert (H : [x20] !! Z.to_nat (0 - 0) = Some xff).
    { apply (Hdata _ 0 [x20] Hin); [unfold u16; lia | left; reflexivity |].
      unfold len. cbn. lia. }
    discriminate H. }
  intros Htop.
  destruct (first_region_at_0 (args_top args) (args_map args) Htop)
    as (stop & page & rs & Er & Hstop & Hpage).
  destruct (record_list_at_0 (slice_of work 0 stop) page (args_erase args) xff)
    as (r & data & Hr & Hk & Hd).
  - intros a Ha. apply (slice_of_u16 work 0 stop) in Ha; [|done|lia|lia].
    unfold u16 in Ha. lia.
  - rewrite slice_of_lookup by (done || lia).
    rewrite decide_True by lia. exact Hw0.
  - apply slice_of_padding.
  - exact Hpage.
  - exists r, data. split; [|auto]. unfold main. rewrite Er.
    cbn [fmap list_fmap fst snd]. apply elem_of_concat_head, Hr.
Qed.

Lemma hex2boot_failsafe_witness :
  let args := mkArgs (Some 1%positive) 0 2 [0x1234] (Some 0x00a5) None 0 0x0002 false in
  let img := image_of [(0, x20); (1, x21)] in
  let s := mkState [] {[ 1%positive := img ]} in
  exists s',
    hex2boot args s = (Ok tt, s')
    /\ brec s'
       = Layout.Identity 0x1234 ++ Layout.Setup keys_default 0
         ++ Layout.Erase 0 [xff; x21] ++ Layout.Verify 0 1 (crc16 [xff; x21] 0)
         ++ Layout.Write 0 [x20] ++ Layout.Lock 0x00a5 ++ Layout.RunApp 0.
Proof.
  intros args img s.
  destruct (hex2boot_failsafe args 1%positive img s) as (s' & Hrun & _ & Hb & _);
    try reflexivity.
  - apply image_of_wf. repeat constructor; cbn; lia.
  - split; [|split; [|split]]; cbn.
    + repeat constructor; unfold u16; lia.
    + lia.
    + lia.
    + intros lock [= <-]. unfold u16. lia.
  - exists s'. split; [exact Hrun|]. rewrite Hb. vm_compute. reflexivity.
Defined.

(** C3. In a session on an image with bank 0 and window start 0 whose
    byte at address 0 is not 0xFF, the image the caller supplied is the
    same after the session as before, whatever the outcome, and so is
    every object that existed before it: the byte at address 0 of the
    supplied image keeps its value. The override to 0xFF is made on the
    object the session itself created for the translation: when the
    session completes, that new object shows 0xFF at address 0 and the
    supplied bytes everywhere else. *)
Theorem hex2boot_keeps_caller_image (args : Args) (source : loc) (img : IntelHex)
    (s : state) :
  args_hexfile args = Some source -> heap s !! source = Some img ->
  args_bank args = 0 -> args_start args = 0 -> reset_vector img <> xff ->
  let s' := (hex2boot args s).2 in
  let ih := fresh (dom (heap s)) in
  heap s' !! source = Some img
  /\ (forall l o, heap s !! l = Some o -> heap s' !! l = Some o)
  /\ (IntelHex_wf img -> args_ok args ->
      exists work,
        (hex2boot args s).1 = Ok tt
        /\ heap s !! ih = None
        /\ heap s' !! ih = Some work
        /\ buf work !! 0 = Some xff
        /\ forall a, a <> 0 -> buf work !! a = buf img !! a).
Proof.
  intros Hfile Hsrc Hbank Hstart Hrv s' ih.
  destruct (keeps_hex2boot (heap s) args s) as [Hkeep _]; [reflexivity|].
  fold s' in Hkeep.
  assert (Hold : forall l o, heap s !! l = Some o -> heap s' !! l = Some o).
  { intros l o Hl. exact (lookup_weaken _ _ _ _ Hl Hkeep). }
  split; [apply Hold, Hsrc|]. split; [exact Hold|].
  intros Hwf Hok.
  destruct (hex2boot_image_run args source img s Hfile Hsrc Hwf Hok)
    as (s1 & Hrun & _ & Hh).
  assert (Hov : override args img = true).
  { unfold override, failsafe.
    rewrite !bool_decide_eq_true_2, bool_decide_eq_false_2 by assumption.
    reflexivity. }
  unfold working_image in Hh. rewrite Hov in Hh.
  eexists. unfold s'. rewrite Hrun. cbn [fst snd].
  split; [reflexivity|]. split; [apply fresh_not_alive|]. split; [exact Hh|].
  cbn [buf]. split; [apply lookup_insert_eq|].
  intros a Ha. apply lookup_insert_ne. congruence.
Qed.

Lemma hex2boot_keeps_caller_image_witness :
  heap (hex2boot (mkArgs (Some 1%positive) 0 2 [] None None 0 0xFFFF false)
                 (mkState [] {[ 1%positive := image_of [(0, x20); (1, x21)] ]})).2
    !! 1%positive
  = Some (image_of [(0, x20); (1, x21)]).
Proof.
  refine (proj1 (hex2boot_keeps_caller_image
                   (mkArgs (Some 1%positive) 0 2 [] None None 0 0xFFFF false)
                   1%positive (image_of [(0, x20); (1, x21)])
                   (mkState [] {[ 1%positive := image_of [(0, x20); (1, x21)] ]})
                   _ _ _ _ _)); try reflexivity.
  vm_compute. discriminate.
Defined.

(** C2, what the code does. The map "bb2" with the window
    [0x0000, 0xFFFF] plans the region [(0xF800, 0xFBBF, 64)], and the
    image has bytes at 0xFBBE and at 0xFBBF, the end of that region. The
    session translates a view that stops at 0xFBBE: one Erase record with
    the 63 bytes of 0xFB80..0xFBBE and a Verify record for
    0xFB80..0xFBBE. The byte 0x12 at 0xFBBF is in no record and in no
    checksum. *)
Theorem hex2boot_drops_region_end :
  let img := image_of [(0xFBBE, x34); (0xFBBF, x12)] in
  let s := mkState [] {[ 1%positive := img ]} in
  let args := mkArgs (Some 1%positive) 0 2 [] None (Some "bb2"%string) 0 0xFFFF false in
  let data := replicate 62 xff ++ [x34] in
  get_regions 0 0xFFFF (Some "bb2"%string)
  = [ (0x0000, 0x3DFF, 512); (0xF800, 0xFBBF, 64) ]
  /\ buf img !! 0xFBBF = Some x12
  /\ buf (slice_of img 0xF800 0xFBBF) !! 0xFBBF = None
  /\ (hex2boot args s).1 = Ok tt
  /\ brec (hex2boot args s).2
     = Layout.Setup keys_default 0
       ++ Layout.Erase 0xFB80 data
       ++ Layout.Verify 0xFB80 0xFBBE (crc16 data 0)
       ++ Layout.RunApp 0.
Proof. vm_compute. repeat split; reflexivity. Qed.

(** The end of a planned region is in no view, whatever the image. *)
Lemma planned_view_excludes_end (o : IntelHex) (org top : Z) (type : option string)
    (r : region) :
  IntelHex_wf o -> 0 <= org -> r ∈ get_regions org top type ->
  buf (slice_of o r.1.1 r.1.2) !! r.1.2 = None.
Proof.
  intros Hwf Horg Hr.
  pose proof (get_regions_of_ok org top (regions type) Horg (regions_ok type)) as H.
  rewrite Forall_forall in H. destruct (H r Hr) as (H1 & H2 & _).
  apply slice_of_excludes_stop; [exact Hwf | lia | lia].
Qed.

End SessionTheorems.

(** * Further properties *)

(** ** The record constructors: errors, framing, decoding *)

Section RecordsMore.

Import Layout.

Lemma pack_B_raises (v : Z) : ~ 0 <= v <= 0xff -> pack_field fmt_B (PyInt v) = None.
Proof. intros H. cbn [pack_field]. rewrite bool_decide_eq_false_2 by exact H. reflexivity. Qed.

Lemma pack_header_some (n ty v : Z) :
  0 <= ty <= 0xff ->
  is_Some (struct_pack [fmt_c; fmt_B; fmt_B; fmt_H]
             [PyBytes FSB; PyInt n; PyInt ty; PyInt v])
  <-> 0 <= n <= 0xff /\ u16 v.
Proof.
  intros Ht. split.
  - intros [r Hr]. cbn [struct_pack] in Hr.
    destruct (decide (0 <= n <= 0xff)) as [Hn|Hn].
    + destruct (decide (u16 v)) as [Hv|Hv]; [auto|].
      rewrite (pack_H_raises v Hv) in Hr.
      destruct (pack_field fmt_c (PyBytes FSB)), (pack_field fmt_B (PyInt n)),
        (pack_field fmt_B (PyInt ty)); discriminate Hr.
    + rewrite (pack_B_raises n Hn) in Hr.
      destruct (pack_field fmt_c (PyBytes FSB)); discriminate Hr.
  - intros [Hn Hv]. rewrite pack_header by assumption. eauto.
Qed.

Lemma is_Some_pack_then (hdr : option bytes) (data : bytes) :
  is_Some (pack_then hdr data) <-> is_Some hdr.
Proof. destruct hdr; cbn; split; intros [x H]; eauto; discriminate H. Qed.

Lemma bin_write_some (addr : Z) (data : bytes) :
  is_Some (bin_write addr data) <-> u16 addr /\ len data <= 252.
Proof.
  unfold bin_write, S_WRITE. rewrite is_Some_pack_then, pack_header_some by lia.
  unfold len. split; intros [H1 H2]; split; (assumption || lia).
Qed.

Lemma bin_erase_some (addr : Z) (data : bytes) :
  is_Some (bin_erase addr data) <-> u16 addr /\ len data <= 252.
Proof.
  unfold bin_erase, S_ERASE. rewrite is_Some_pack_then, pack_header_some by lia.
  unfold len. split; intros [H1 H2]; split; (assumption || lia).
Qed.

Lemma bin_ident_some (blid : Z) : is_Some (bin_ident blid) <-> u16 blid.
Proof. unfold bin_ident, S_IDENT. rewrite pack_header_some by lia. intuition lia. Qed.

Lemma bin_lock_some (lock : Z) : is_Some (bin_lock lock) <-> u16 lock.
Proof. unfold bin_lock, S_LOCK. rewrite pack_header_some by lia. intuition lia. Qed.

Lemma bin_runapp_some (opt : Z) : is_Some (bin_runapp opt) <-> u16 opt.
Proof. unfold bin_runapp, S_RUNAPP. rewrite pack_header_some by lia. intuition lia. Qed.

Lemma bin_setup_some (bank keys : Z) :
  is_Some (bin_setup bank keys) <-> 0 <= bank <= 0xff /\ u16 keys.
Proof.
  split.
  - intros [r Hr]. unfold bin_setup, S_SETUP in Hr. cbn [struct_pack] in Hr.
    destruct (decide (u16 keys)) as [Hk|Hk].
    + destruct (decide (0 <= bank <= 0xff)) as [Hb|Hb]; [auto|].
      rewrite (pack_B_raises bank Hb) in Hr.
      destruct (pack_field fmt_c (PyBytes FSB)), (pack_field fmt_B (PyInt 4)),
        (pack_field fmt_B (PyInt 49)), (pack_field fmt_H (PyInt keys));
        discriminate Hr.
    + rewrite (pack_H_raises keys Hk) in Hr.
      destruct (pack_field fmt_c (PyBytes FSB)), (pack_field fmt_B (PyInt 4)),
        (pack_field fmt_B (PyInt 49)); discriminate Hr.
  - intros [Hb Hk]. rewrite bin_setup_ok by assumption. eauto.
Qed.

Lemma bin_verify_some (org end_ crc : Z) :
  is_Some (bin_verify org end_ crc) <-> u16 org /\ u16 end_ /\ u16 crc.
Proof.
  split.
  - intros [r Hr]. unfold bin_verify, S_VERIFY in Hr. cbn [struct_pack] in Hr.
    destruct (decide (u16 org)) as [Ho|Ho];
      [|rewrite (pack_H_raises org Ho) in Hr;
        destruct (pack_field fmt_c (PyBytes FSB)), (pack_field fmt_B (PyInt 7)),
          (pack_field fmt_B (PyInt 52)); discriminate Hr].
    destruct (decide (u16 end_)) as [He|He];
      [|rewrite (pack_H_raises end_ He) in Hr;
        destruct (pack_field fmt_c (PyBytes FSB)), (pack_field fmt_B (PyInt 7)),
          (pack_field fmt_B (PyInt 52)), (pack_field fmt_H (PyInt org));
          discriminate Hr].
    destruct (decide (u16 crc)) as [Hc|Hc]; [auto|].
    rewrite (pack_H_raises crc Hc) in Hr.
    destruct (pack_field fmt_c (PyBytes FSB)), (pack_field fmt_B (PyInt 7)),
      (pack_field fmt_B (PyInt 52)), (pack_field fmt_H (PyInt org)),
      (pack_field fmt_H (PyInt end_)); discriminate Hr.
  - intros (Ho & He & Hc). rewrite bin_verify_ok by assumption. eauto.
Qed.

(** X1. A record constructor raises [struct.error] exactly when one of its
    fields does not fit: a 16-bit field outside 0..0xFFFF, a bank outside
    0..0xFF, or more than 252 data bytes (the length byte would exceed
    0xFF). Otherwise it returns a record. *)
Theorem bin_constructors_raise_iff (blid keys bank addr org end_ crc lock opt : Z)
    (data : bytes) :
  (bin_ident blid = None <-> ~ u16 blid)
  /\ (bin_setup bank keys = None <-> ~ (0 <= bank <= 0xff /\ u16 keys))
  /\ (bin_erase addr data = None <-> ~ (u16 addr /\ len data <= 252))
  /\ (bin_write addr data = None <-> ~ (u16 addr /\ len data <= 252))
  /\ (bin_verify org end_ crc = None <-> ~ (u16 org /\ u16 end_ /\ u16 crc))
  /\ (bin_lock lock = None <-> ~ u16 lock)
  /\ (bin_runapp opt = None <-> ~ u16 opt).
Proof.
  assert (Hn : forall (o : option bytes) (P : Prop),
             (is_Some o <-> P) -> (o = None <-> ~ P)).
  { intros o P H. rewrite eq_None_not_Some, H. reflexivity. }
  split; [apply Hn, bin_ident_some|].
  split; [apply Hn, bin_setup_some|].
  split; [apply Hn, bin_erase_some|].
  split; [apply Hn, bin_write_some|].
  split; [apply Hn, bin_verify_some|].
  split; [apply Hn, bin_lock_some | apply Hn, bin_runapp_some].
Qed.

End RecordsMore.

Section Framing.

Import Layout.

Lemma framed_record (ty : byte) (payload : bytes) :
  1 + len payload <= 0xff -> framed (record ty payload).
Proof.
  intros H. exists (byte_of_Z (1 + len payload)), (ty :: payload).
  assert (Hl : len (ty :: payload) = 1 + len payload).
  { unfold len. cbn [length]. lia. }
  split; [reflexivity|]. rewrite Hl. unfold len in *.
  split; [apply byte_of_Z_val; lia | lia].
Qed.

Lemma len_app (a b : bytes) : len (a ++ b) = len a + len b.
Proof. unfold len. rewrite length_app. lia. Qed.

Lemma len_be16 (v : Z) : len (be16 v) = 2.
Proof. reflexivity. Qed.

Lemma framed_of_constructor (o : option bytes) (P : Prop) (r0 r : bytes) :
  (is_Some o <-> P) -> (P -> o = Some r0) -> (P -> framed r0) ->
  o = Some r -> framed r.
Proof.
  intros Hiff Hok Hfr Hr. assert (HP : P) by (apply Hiff; eauto).
  rewrite (Hok HP) in Hr. injection Hr as <-. apply Hfr, HP.
Qed.

(** X2. Whatever a record constructor returns is framed: the marker 0x24,
    a length byte, and then exactly as many bytes as the length byte says,
    the type code first. *)
Theorem bin_constructors_framed (blid keys bank addr org end_ crc lock opt : Z)
    (data r : bytes) :
  bin_ident blid = Some r \/ bin_setup bank keys = Some r
  \/ bin_erase addr data = Some r \/ bin_write addr data = Some r
  \/ bin_verify org end_ crc = Some r \/ bin_lock lock = Some r
  \/ bin_runapp opt = Some r ->
  framed r /\ length r = (2 + Z.to_nat (byte_val (nth 1 r x00)))%nat.
Proof.
  intros H.
  assert (Hf : framed r).
  { destruct H as [H|[H|[H|[H|[H|[H|H]]]]]].
    - eapply framed_of_constructor;
        [apply bin_ident_some | apply bin_ident_ok | | exact H].
      intros _. apply framed_record. rewrite len_be16. lia.
    - eapply (framed_of_constructor _ _ (Setup keys bank));
        [apply bin_setup_some | intros [? ?]; apply bin_setup_ok; assumption | | exact H].
      intros _. apply framed_record. rewrite len_app, len_be16. unfold len. cbn. lia.
    - eapply (framed_of_constructor _ _ (Erase addr data));
        [apply bin_erase_some | intros [? ?]; apply bin_erase_ok; [assumption|lia] | | exact H].
      intros [_ Hl]. apply framed_record. rewrite len_app, len_be16. lia.
    - eapply (framed_of_constructor _ _ (Write addr data));
        [apply bin_write_some | intros [? ?]; apply bin_write_ok; [assumption|lia] | | exact H].
      intros [_ Hl]. apply framed_record. rewrite len_app, len_be16. lia.
    - eapply (framed_of_constructor _ _ (Verify org end_ crc));
        [apply bin_verify_some | intros (? & ? & ?); apply bin_verify_ok; assumption | | exact H].
      intros _. apply framed_record. rewrite !len_app, !len_be16. lia.
    - eapply framed_of_constructor;
        [apply bin_lock_some | apply bin_lock_ok | | exact H].
      intros _. apply framed_record. rewrite len_be16. lia.
    - eapply framed_of_constructor;
        [apply bin_runapp_some | apply bin_runapp_ok | | exact H].
      intros _. apply framed_record. rewrite len_be16. lia. }
  split; [exact Hf|].
  destruct Hf as (l & body & -> & Hl & _). cbn [nth length].
  rewrite Hl. unfold len. lia.
Qed.

Lemma bin_constructors_framed_witness :
  framed [x24; x04; x33; x02; x00; xaa]
  /\ length [x24; x04; x33; x02; x00; xaa]
     = (2 + Z.to_nat (byte_val (nth 1 [x24; x04; x33; x02; x00; xaa] x00)))%nat.
Proof.
  apply (bin_constructors_framed 0 0 0 0x0200 0 0 0 0 0 [xaa]).
  right. right. right. left. reflexivity.
Defined.

Lemma framed_length (r : bytes) : framed r -> (1 <= length r)%nat.
Proof. intros (l & body & -> & _). cbn. lia. Qed.

Lemma split_records_concat (rs : list bytes) (fuel : nat) :
  Forall framed rs -> (length rs <= fuel)%nat ->
  split_records fuel (concat rs) = Some rs.
Proof.
  intros Hrs. revert fuel.
  induction Hrs as [|r rs (l & body & -> & Hl & Hb) _ IH]; intros fuel Hfuel.
  - destruct fuel; reflexivity.
  - cbn [concat app]. cbn [length] in Hfuel.
    destruct fuel as [|fuel]; [lia|].
    assert (Hn : Z.to_nat (byte_val l) = length body) by (unfold len in Hl; lia).
    cbn [split_records]. rewrite Hn.
    rewrite bool_decide_eq_true_2 by reflexivity.
    rewrite bool_decide_eq_true_2 by (rewrite length_app; lia).
    cbn [andb]. rewrite drop_app_length, take_app_length.
    rewrite IH by lia. reflexivity.
Qed.

Lemma length_concat_framed (rs : list bytes) :
  Forall framed rs -> (length rs <= length (concat rs))%nat.
Proof.
  induction 1 as [|r rs Hr _ IH]; [reflexivity|].
  cbn [concat length]. rewrite length_app. apply framed_length in Hr. lia.
Qed.

(** X3. A stream made of framed records (so of outputs of the record
    constructors) is cut back into exactly those records by following the
    length bytes: the records need no separator and no count. *)
Theorem decode_stream_concat (rs : list bytes) :
  Forall framed rs -> decode_stream (concat rs) = Some rs.
Proof.
  intros H. apply split_records_concat; [exact H|].
  apply length_concat_framed, H.
Qed.

Lemma decode_stream_concat_witness :
  decode_stream (concat [Layout.Erase 0x0200 []; Layout.Write 0x0200 [xaa; xbb]])
  = Some [Layout.Erase 0x0200 []; Layout.Write 0x0200 [xaa; xbb]].
Proof.
  apply decode_stream_concat.
  repeat constructor; apply framed_record; vm_compute; discriminate.
Defined.

(** X4. The address and the data of a Write or Erase record can be read
    back from it: two calls of the constructor that return the same
    record had the same address and the same data. And an Erase record
    is never equal to a Write record. *)
Theorem bin_write_erase_injective (addr addr' : Z) (data data' r : bytes) :
  (bin_write addr data = Some r -> bin_write addr' data' = Some r ->
   addr = addr' /\ data = data')
  /\ (bin_erase addr data = Some r -> bin_erase addr' data' = Some r ->
      addr = addr' /\ data = data')
  /\ (bin_erase addr data = Some r -> bin_write addr' data' <> Some r).
Proof.
  assert (Hw : forall a d x, bin_write a d = Some x ->
                u16 a /\ x = [x24; byte_of_Z (1 + len (be16 a ++ d)); x33] ++ be16 a ++ d).
  { intros a d x H. assert (Hs : is_Some (bin_write a d)) by eauto.
    apply bin_write_some in Hs as [Ha Hl].
    rewrite bin_write_ok in H by (assumption || lia). injection H as <-. auto. }
  assert (He : forall a d x, bin_erase a d = Some x ->
                u16 a /\ x = [x24; byte_of_Z (1 + len (be16 a ++ d)); x32] ++ be16 a ++ d).
  { intros a d x H. assert (Hs : is_Some (bin_erase a d)) by eauto.
    apply bin_erase_some in Hs as [Ha Hl].
    rewrite bin_erase_ok in H by (assumption || lia). injection H as <-. auto. }
  split; [|split].
  - intros H1 H2. apply Hw in H1 as [Ha ->]. apply Hw in H2 as [Ha' E].
    cbn [app] in E. injection E as _ Hhi Hlo Hd.
    split; [|exact Hd]. apply be16_inj; [assumption..|]. unfold be16. congruence.
  - intros H1 H2. apply He in H1 as [Ha ->]. apply He in H2 as [Ha' E].
    cbn [app] in E. injection E as _ Hhi Hlo Hd.
    split; [|exact Hd]. apply be16_inj; [assumption..|]. unfold be16. congruence.
  - intros H1 H2. apply He in H1 as [Ha ->]. apply Hw in H2 as [Ha' E].
    cbn [app] in E. discriminate E.
Qed.

Lemma bin_write_erase_injective_witness :
  0x0200 = 0x0200 /\ [xaa] = [xaa].
Proof.
  apply (proj1 (bin_write_erase_injective 0x0200 0x0200 [xaa] [xaa]
                  [x24; x04; x33; x02; x00; xaa])); reflexivity.
Defined.

End Framing.

(** ** The checksum: range, register, detection *)

Section CrcMore.

(** X5. [crc16] returns a 16-bit value for every data and every initial
    value, also a negative or an oversized one, and the initial value
    counts only through its low 16 bits. *)
Theorem crc16_sixteen_bits (data : bytes) (c : Z) :
  0 <= crc16 data c <= 0xffff /\ crc16 data (Z.land c 0xffff) = crc16 data c.
Proof.
  split.
  - pose proof (crc16_range data c). lia.
  - apply crc16_with_mask.
Qed.

Lemma lxor_cancel_l (a b c : Z) : Z.lxor a b = Z.lxor a c -> b = c.
Proof.
  intros H. apply (f_equal (Z.lxor a)) in H.
  rewrite <- !Z.lxor_assoc, Z.lxor_nilpotent, !Z.lxor_0_l in H. exact H.
Qed.

Lemma lxor_cancel_r (a b c : Z) : Z.lxor b a = Z.lxor c a -> b = c.
Proof. rewrite !(Z.lxor_comm _ a). apply lxor_cancel_l. Qed.

(** The low bytes of the 256 table entries are pairwise different. *)
Lemma table_low_bytes_checked :
  forallb (fun i =>
     forallb (fun j =>
        implb (Z.land (table_get _CRC16_XMODEM_TABLE (Z.of_nat i)) 0xff
               =? Z.land (table_get _CRC16_XMODEM_TABLE (Z.of_nat j)) 0xff)
              (Nat.eqb i j))
       (seq 0 256))
    (seq 0 256) = true.
Proof. vm_compute. reflexivity. Qed.

Lemma table_low_byte_inj (x y : Z) :
  0 <= x < 256 -> 0 <= y < 256 ->
  Z.land (table_get _CRC16_XMODEM_TABLE x) 0xff
  = Z.land (table_get _CRC16_XMODEM_TABLE y) 0xff ->
  x = y.
Proof.
  intros Hx Hy H. pose proof table_low_bytes_checked as Hc.
  rewrite forallb_forall in Hc.
  assert (Hix : In (Z.to_nat x) (seq 0 256)) by (apply in_seq; lia).
  assert (Hiy : In (Z.to_nat y) (seq 0 256)) by (apply in_seq; lia).
  specialize (Hc _ Hix). rewrite forallb_forall in Hc. specialize (Hc _ Hiy).
  rewrite !Z2Nat.id in Hc by lia.
  rewrite H, Z.eqb_refl in Hc. cbn [implb] in Hc.
  apply Nat.eqb_eq in Hc. lia.
Qed.

Lemma index_range (crc : Z) (b : byte) :
  0 <= Z.lxor (Z.land (Z.shiftr crc 8) 0xff) (byte_val b) < 256.
Proof.
  apply (lxor_small 8); [lia | | apply byte_val_range].
  change 0xff with (Z.ones 8). rewrite Z.land_ones by lia.
  apply Z.mod_pos_bound. lia.
Qed.

(** From the new register the table index and the shifted low byte of the
    old one can be read back. *)
Lemma crc16_update_inv (c c' : Z) (b b' : byte) :
  crc16_update _CRC16_XMODEM_TABLE c b = crc16_update _CRC16_XMODEM_TABLE c' b' ->
  Z.lxor (Z.land (Z.shiftr c 8) 0xff) (byte_val b)
  = Z.lxor (Z.land (Z.shiftr c' 8) 0xff) (byte_val b')
  /\ Z.land (Z.shiftl c 8) 0xff00 = Z.land (Z.shiftl c' 8) 0xff00.
Proof.
  unfold crc16_update. intros H.
  assert (Hlow : forall u t, Z.land (Z.lxor (Z.land u 0xff00) t) 0xff = Z.land t 0xff).
  { intros u t. rewrite land_lxor_distr, <- Z.land_assoc.
    change (Z.land 0xff00 0xff) with 0. rewrite Z.land_0_r, Z.lxor_0_l. reflexivity. }
  assert (Hidx : Z.lxor (Z.land (Z.shiftr c 8) 0xff) (byte_val b)
                 = Z.lxor (Z.land (Z.shiftr c' 8) 0xff) (byte_val b')).
  { apply table_low_byte_inj; [apply index_range | apply index_range |].
    pose proof (f_equal (fun v => Z.land v 0xff) H) as H'. cbv beta in H'.
    rewrite !Hlow in H'. exact H'. }
  split; [exact Hidx|]. rewrite Hidx in H. apply lxor_cancel_r in H. exact H.
Qed.

Lemma byte_val_inj (b b' : byte) : byte_val b = byte_val b' -> b = b'.
Proof.
  intros H. rewrite <- (byte_of_Z_of_val b), <- (byte_of_Z_of_val b'), H. reflexivity.
Qed.

Lemma crc16_update_inj_byte (c : Z) (b b' : byte) :
  crc16_update _CRC16_XMODEM_TABLE c b = crc16_update _CRC16_XMODEM_TABLE c b' ->
  b = b'.
Proof.
  intros H. apply crc16_update_inv in H as [H _].
  apply lxor_cancel_l in H. apply byte_val_inj, H.
Qed.

Lemma crc16_update_inj_register (c c' : Z) (b : byte) :
  0 <= c < 2 ^ 16 -> 0 <= c' < 2 ^ 16 ->
  crc16_update _CRC16_XMODEM_TABLE c b = crc16_update _CRC16_XMODEM_TABLE c' b ->
  c = c'.
Proof.
  intros Hc Hc' H. apply crc16_update_inv in H as [Hh Hl].
  apply lxor_cancel_r in Hh.
  pose proof (high_byte_range c Hc) as Hhc.
  pose proof (high_byte_range c' Hc') as Hhc'.
  change 0xff with (Z.ones 8) in Hh.
  rewrite !(low_mask_small 8) in Hh by lia.
  rewrite !low_byte_shifted, !Z.land_ones, !Z.shiftl_mul_pow2 in Hl by lia.
  rewrite !Z.shiftr_div_pow2 in Hh by lia.
  rewrite (Z.div_mod c (2 ^ 8)), (Z.div_mod c' (2 ^ 8)) by lia. lia.
Qed.

Lemma crc16_update_range (c : Z) (b : byte) :
  0 <= c < 2 ^ 16 -> 0 <= crc16_update _CRC16_XMODEM_TABLE c b < 2 ^ 16.
Proof.
  intros Hc. rewrite crc16_update_feed_byte by exact Hc. apply feed_byte_range.
Qed.

Lemma crc16_cons (b : byte) (data : bytes) (c : Z) :
  0 <= c < 2 ^ 16 ->
  crc16 (b :: data) c = crc16 data (crc16_update _CRC16_XMODEM_TABLE c b).
Proof. reflexivity. Qed.

Lemma crc16_inj_init (data : bytes) (c c' : Z) :
  0 <= c < 2 ^ 16 -> 0 <= c' < 2 ^ 16 ->
  crc16 data c = crc16 data c' -> c = c'.
Proof.
  revert c c'. induction data as [|b data IH]; intros c c' Hc Hc' H.
  - unfold crc16, crc16_with in H. cbn [fold_left] in H.
    change 0xffff with (Z.ones 16) in H.
    rewrite !low_mask_small in H by lia. exact H.
  - rewrite !crc16_cons in H by assumption.
    apply IH in H; [|apply crc16_update_range; assumption..].
    apply (crc16_update_inj_register c c' b); assumption.
Qed.

(** X6. Replacing one byte of the data by a different byte, anywhere,
    always changes the checksum, whatever the initial value; and from
    two different 16-bit initial values the same data gives two different
    checksums. *)
Theorem crc16_detects_byte_change (pre post : bytes) (b b' : byte) (c c1 c2 : Z) :
  b <> b' -> 0 <= c1 < 2 ^ 16 -> 0 <= c2 < 2 ^ 16 -> c1 <> c2 ->
  crc16 (pre ++ b :: post) c <> crc16 (pre ++ b' :: post) c
  /\ crc16 post c1 <> crc16 post c2.
Proof.
  intros Hb Hc1 Hc2 Hne. split.
  - rewrite !crc16_app. pose proof (crc16_range pre c) as Hr.
    set (r := crc16 pre c) in *. rewrite !crc16_cons by exact Hr.
    intros H. apply crc16_inj_init in H; [|apply crc16_update_range; exact Hr..].
    apply crc16_update_inj_byte in H. contradiction.
  - intros H. apply crc16_inj_init in H; [contradiction | assumption..].
Qed.

Lemma crc16_detects_byte_change_witness :
  crc16 ([x01] ++ x02 :: [x03]) 0 <> crc16 ([x01] ++ x7f :: [x03]) 0
  /\ crc16 [x03] 0 <> crc16 [x03] 1.
Proof.
  apply crc16_detects_byte_change; (discriminate || lia).
Defined.

End CrcMore.

(** ** The region planner: bounds and order *)

Section PlannerMore.

Lemma elem_of_get_regions (org top : Z) (type : option string) (r : region) :
  r ∈ get_regions org top type
  <-> exists d, d ∈ regions type /\ overlaps org top d /\ r = clip org top d.
Proof.
  unfold get_regions. rewrite get_regions_of_filter, list_elem_of_fmap. split.
  - intros (d & -> & Hd). apply list_elem_of_filter in Hd as [Ho Hd]. eauto.
  - intros (d & Hd & Ho & ->). exists d. split; [reflexivity|].
    apply list_elem_of_filter. auto.
Qed.

(** X7. Every region [get_regions] yields is the clipping of a declared
    region of the map: it lies inside the window and inside that declared
    region, holds more than one address ([start < stop]) and keeps the
    declared page size. No more regions are yielded than declared, and
    none at all for a window with [top <= org]. *)
Theorem get_regions_within_window (org top : Z) (type : option string) (r : region) :
  r ∈ get_regions org top type ->
  (exists d, d ∈ regions type
             /\ d.1.1 <= r.1.1 /\ r.1.2 <= d.1.2 /\ r.2 = d.2)
  /\ org <= r.1.1 /\ r.1.1 < r.1.2 /\ r.1.2 <= top
  /\ (length (get_regions org top type) <= length (regions type))%nat
  /\ (forall org' top', top' <= org' -> get_regions org' top' type = []).
Proof.
  intros Hr. apply elem_of_get_regions in Hr as (d & Hd & Ho & ->).
  unfold overlaps in Ho. unfold clip. cbn [fst snd].
  split; [exists d; repeat split; [exact Hd | lia | lia]|].
  split; [lia|]. split; [exact Ho|]. split; [lia|]. split.
  - unfold get_regions. rewrite get_regions_of_filter, length_fmap.
    apply length_filter.
  - intros org' top' Hle. unfold get_regions. clear Hd.
    induction (regions type) as [|[[start stop] page] rs IH]; [reflexivity|].
    cbn [get_regions_of]. rewrite bool_decide_eq_false_2 by lia. exact IH.
Qed.

Lemma get_regions_within_window_witness :
  0x0100 <= (0x0100, 0x3000, 512).1.1
  /\ (0x0100, 0x3000, 512).1.1 < (0x0100, 0x3000, 512).1.2
  /\ (0x0100, 0x3000, 512).1.2 <= 0x3000.
Proof.
  pose proof (get_regions_within_window 0x0100 0x3000 (Some "bb2"%string)
                (0x0100, 0x3000, 512)) as H.
  destruct H as (_ & H1 & H2 & H3 & _).
  - vm_compute. left.
  - exact (conj H1 (conj H2 H3)).
Defined.

Lemma regions_separated (type : option string) : StronglySorted before (regions type).
Proof.
  destruct (regions_cases type) as [-> | [-> | [-> | [-> | ->]]]];
    repeat constructor; unfold before; cbn; lia.
Qed.

Lemma get_regions_of_source (org top : Z) (rs : list region) (r : region) :
  r ∈ get_regions_of org top rs -> exists d, d ∈ rs /\ d.1.1 <= r.1.1 /\ r.1.2 <= d.1.2.
Proof.
  rewrite get_regions_of_filter, list_elem_of_fmap.
  intros (d & -> & Hd). apply list_elem_of_filter in Hd as [_ Hd].
  exists d. unfold clip. cbn [fst snd]. split; [exact Hd | lia].
Qed.

Lemma get_regions_of_separated (org top : Z) (rs : list region) :
  StronglySorted before rs -> StronglySorted before (get_regions_of org top rs).
Proof.
  induction 1 as [|[[start stop] page] rs Hs IH Hall]; [constructor|].
  cbn [get_regions_of]. case_bool_decide; [|exact IH].
  constructor; [exact IH|]. apply Forall_forall. intros r Hr.
  apply get_regions_of_source in Hr as (d & Hd & H1 & H2).
  rewrite Forall_forall in Hall. specialize (Hall d Hd).
  unfold before in *. cbn [fst snd] in *. lia.
Qed.

Lemma separated_lookup (l : list region) (i j : nat) (ri rj : region) :
  StronglySorted before l -> (i < j)%nat ->
  l !! i = Some ri -> l !! j = Some rj -> before ri rj.
Proof.
  intros Hs. revert i j. induction Hs as [|x l Hs IH Hall]; intros i j Hij Hi Hj.
  - rewrite lookup_nil in Hi. discriminate Hi.
  - destruct j as [|j]; [lia|]. cbn in Hj. destruct i as [|i].
    + cbn in Hi. injection Hi as <-. rewrite Forall_forall in Hall.
      apply Hall. apply list_elem_of_lookup. eauto.
    + cbn in Hi. apply (IH i j); [lia | assumption..].
Qed.

(** X8. For every map and every window the planned regions are disjoint
    and ascending: each one ends before every later one starts, so no
    address belongs to two planned regions. *)
Theorem get_regions_disjoint (org top : Z) (type : option string) :
  StronglySorted before (get_regions org top type)
  /\ forall i j ri rj, (i < j)%nat ->
       get_regions org top type !! i = Some ri ->
       get_regions org top type !! j = Some rj ->
       ri.1.2 < rj.1.1.
Proof.
  assert (Hs : StronglySorted before (get_regions org top type)).
  { apply get_regions_of_separated, regions_separated. }
  split; [exact Hs|].
  intros i j ri rj Hij Hi Hj.
  exact (separated_lookup _ i j ri rj Hs Hij Hi Hj).
Qed.

End PlannerMore.

(** ** The translators: what the walk covers *)

Section TranslatorsMore.

Import Translate.

Lemma py_range_nil (start stop step : Z) :
  0 < step -> stop <= start -> py_range start stop step = [].
Proof.
  intros Hs Hle. unfold py_range. rewrite bool_decide_eq_true_2 by lia.
  assert (Hq : (stop - start + step - 1) / step <= 0).
  { apply Z.lt_succ_r, Z.div_lt_upper_bound; lia. }
  replace (Z.to_nat _) with 0%nat by lia. reflexivity.
Qed.

Lemma py_range_cons (start stop step : Z) :
  0 < step -> start < stop ->
  py_range start stop step = start :: py_range (start + step) stop step.
Proof.
  intros Hs Hlt. unfold py_range. rewrite !bool_decide_eq_true_2 by lia.
  replace (stop - start + step - 1) with (stop - (start + step) + step - 1 + 1 * step)
    by lia.
  rewrite Z.div_add by lia.
  assert (Hq : 0 <= (stop - (start + step) + step - 1) / step)
    by (apply Z.div_pos; lia).
  rewrite Z2Nat.inj_add by lia. change (Z.to_nat 1) with 1%nat.
  rewrite Nat.add_1_r. cbn [seq fmap list_fmap]. f_equal; [lia|].
  rewrite <- fmap_S_seq, <- list_fmap_compose. apply list_fmap_ext.
  intros _ i _. cbn. lia.
Qed.

Lemma tobin_of_app (o : IntelHex) (a b c : Z) :
  a <= b + 1 -> b <= c ->
  tobin_of o a b ++ tobin_of o (b + 1) c = tobin_of o a c.
Proof.
  intros Hab Hbc. unfold tobin_of. rewrite !py_range_unit, <- fmap_app.
  f_equal. replace (c + 1 - a) with ((b + 1 - a) + (c + 1 - (b + 1))) by lia.
  rewrite seqZ_app by lia. do 2 f_equal. lia.
Qed.

Lemma tobin_of_empty (o : IntelHex) (a b : Z) : b < a -> tobin_of o a b = [].
Proof. intros H. unfold tobin_of. rewrite py_range_nil by lia. reflexivity. Qed.

(** The chunks of a walk, one after the other, are the bytes of
    [low..high]: no gap, no overlap. *)
Lemma chunks_tile (o : IntelHex) (step high : Z) (n : nat) (low : Z) :
  1 <= step -> low <= high + 1 -> (Z.to_nat (high + 1 - low) <= n)%nat ->
  concat (chunk_data o step high <$> py_range low (high + 1) step)
  = tobin_of o low high.
Proof.
  intros Hs. revert low. induction n as [|n IH]; intros low Hlow Hn.
  - rewrite py_range_nil, tobin_of_empty by lia. reflexivity.
  - destruct (decide (low = high + 1)) as [->|Hne].
    { rewrite py_range_nil, tobin_of_empty by lia. reflexivity. }
    rewrite py_range_cons by lia. cbn [fmap list_fmap concat].
    fold (@fmap list _ Z bytes). unfold chunk_data at 1.
    destruct (decide (step <= high - low + 1)) as [Hfit|Hlast].
    + rewrite Z.min_l by lia. rewrite IH by lia.
      replace (low + step) with (low + step - 1 + 1) at 2 by lia.
      apply tobin_of_app; lia.
    + rewrite Z.min_r by lia. rewrite py_range_nil by lia. cbn [fmap list_fmap concat].
      rewrite app_nil_r. f_equal. lia.
Qed.

(** X9. The one Verify record of [mem2boot] names the range [low..high],
    with [low] the start of the page of the lowest populated address, and
    its checksum is the CRC-16 of exactly the [high - low + 1] bytes the
    image reads as over that range (padding where nothing is populated):
    the chunks tile the range without gap or overlap. *)
Theorem mem2boot_verifies_range (ih : loc) (o : IntelHex) (page erase : Z) (s : state)
    (first last : Z) :
  heap s !! ih = Some o -> 1 <= page -> addresses_u16 o ->
  lowest_populated o first -> highest_populated o last ->
  let low := first / page * page in
  let step := Z.min 128 page in
  let walk := py_range low (last + 1) step in
  (exists chunks,
     mem2boot ih page erase s
     = (Ok tt,
        emit s (chunks ++ Layout.Verify low last (crc16 (tobin_of o low last) 0))))
  /\ concat (chunk_data o step last <$> walk) = tobin_of o low last
  /\ len (tobin_of o low last) = last - low + 1
  /\ low `mod` page = 0 /\ low <= first < low + page.
Proof.
  intros Hih Hp Hu Hfirst Hlast low step walk.
  pose proof (Hu _ (proj1 Hfirst)) as Hf16. unfold u16 in Hf16.
  assert (Hfl : first <= last) by (apply Hfirst, Hlast).
  pose proof (page_floor_bounds first page ltac:(lia) Hp) as Hfloor.
  assert (Htile : concat (chunk_data o step last <$> walk) = tobin_of o low last).
  { apply (chunks_tile o step last (Z.to_nat (last + 1 - low))); unfold step, low; lia. }
  split.
  { rewrite (mem2boot_run ih o) by assumption. unfold records.
    destruct (sorted_keys (buf o)) as [|f rest] eqn:E.
    - apply sorted_keys_nil in E. destruct Hfirst as [[x Hx] _].
      rewrite E, lookup_empty in Hx. discriminate Hx.
    - apply sorted_keys_bounds in E as [Hf Hl].
      pose proof (lowest_populated_unique o f first Hf Hfirst) as ->.
      rewrite (highest_populated_unique o _ last Hl Hlast).
      unfold walk_records. fold low step walk. rewrite Htile. eauto. }
  split; [exact Htile|]. split.
  { unfold len. rewrite tobin_of_length. unfold low. lia. }
  split.
  { unfold low. apply Z.mod_mul. lia. }
  unfold low. pose proof (Z.mod_pos_bound first page ltac:(lia)).
  pose proof (Z.div_mod first page ltac:(lia)). lia.
Qed.

Lemma mem2boot_verifies_range_witness :
  let o := mkIntelHex (<[0x0201 := x11]> (<[0x0203 := x22]> ∅)) xff in
  len (tobin_of o (0x0201 / 512 * 512) 0x0203) = 0x0203 - 0x0201 / 512 * 512 + 1.
Proof.
  intros o.
  assert (Hk : sorted_keys (buf o) = [0x0201; 0x0203]) by (vm_compute; reflexivity).
  destruct (sorted_keys_bounds o _ _ Hk) as [Hlow Hhigh].
  assert (Hu : addresses_u16 o).
  { intros a Ha. apply elem_of_sorted_keys in Ha. rewrite Hk in Ha.
    apply elem_of_cons in Ha as [->|Ha]; [unfold u16; lia|].
    apply list_elem_of_singleton in Ha as ->. unfold u16; lia. }
  refine (proj1 (proj2 (proj2 (mem2boot_verifies_range 1%positive o 512 2
            (mkState [] {[ 1%positive := o ]}) 0x0201 0x0203 _ _ Hu Hlow Hhigh))));
    [reflexivity | lia].
Defined.

Lemma page_start_in_walk (low high page step a : Z) :
  1 <= step -> 1 <= page -> page `mod` step = 0 -> low `mod` page = 0 ->
  low <= a <= high ->
  a / page * page ∈ py_range low (high + 1) step.
Proof.
  intros Hs Hp Hdiv Hlow Ha.
  apply Z.mod_divide in Hdiv as [k Hk]; [|lia].
  apply Z.mod_divide in Hlow as [m Hm]; [|lia].
  assert (Hk0 : 0 < k) by nia.
  assert (Hq : m <= a / page).
  { apply Z.div_le_lower_bound; lia. }
  assert (Hfl : a / page * page <= a).
  { pose proof (Z.mul_div_le a page ltac:(lia)). lia. }
  apply elem_of_py_range_iff; [lia|].
  assert (E : (a / page - m) * k * step = (a / page - m) * page).
  { rewrite <- Z.mul_assoc, <- Hk. reflexivity. }
  exists ((a / page - m) * k). split; [nia|]. split; [|lia].
  rewrite E, Hm. ring.
Qed.

Lemma map_pages_divisible (type : option string) (r : region) :
  r ∈ regions type -> r.2 `mod` Z.min 128 r.2 = 0.
Proof.
  intros Hr.
  destruct (regions_cases type) as [E | [E | [E | [E | E]]]]; rewrite E in Hr;
    repeat (apply elem_of_cons in Hr as [->|Hr]; [reflexivity|]);
    apply elem_of_nil in Hr; contradiction.
Qed.

Lemma py_range_ascending (n : nat) (start stop step : Z) :
  0 < step -> (Z.to_nat (stop - start) <= n)%nat ->
  StronglySorted Z.lt (py_range start stop step).
Proof.
  intros Hs. revert start. induction n as [|n IH]; intros start Hn.
  - rewrite py_range_nil by lia. constructor.
  - destruct (decide (stop <= start)) as [Hle|Hlt].
    { rewrite py_range_nil by lia. constructor. }
    rewrite py_range_cons by lia. constructor; [apply IH; lia|].
    apply Forall_forall. intros x Hx.
    apply elem_of_py_range in Hx as [Hx _]; lia.
Qed.

(** X10. When the page size is a multiple of the chunk size (as is every
    page size of the maps) and the mode is an erasing one, [mem2boot]
    erases every page that holds an address of [low..high] before it
    writes into it: its output is the chunks of the walk addresses below
    the first address of the page, then an Erase record for that first
    address, then the rest. *)
Theorem mem2boot_erases_every_page (ih : loc) (o : IntelHex) (page erase : Z)
    (s : state) (first last a : Z) :
  heap s !! ih = Some o -> 1 <= page -> addresses_u16 o ->
  lowest_populated o first -> highest_populated o last ->
  page `mod` Z.min 128 page = 0 -> erase <> erase_none ->
  first / page * page <= a <= last ->
  let low := first / page * page in
  let step := Z.min 128 page in
  let start := a / page * page in
  (exists w1 w2 e rest,
     py_range low (last + 1) step = w1 ++ start :: w2
     /\ Forall (fun addr => addr < start) w1
     /\ mem2boot ih page erase s
        = (Ok tt,
           emit s
             (concat ((fun addr => chunk page erase addr (chunk_data o step last addr))
                        <$> w1)
              ++ Layout.Erase start e ++ rest)))
  /\ start <= a < start + page
  /\ forall type r, r ∈ regions type -> r.2 `mod` Z.min 128 r.2 = 0.
Proof.
  intros Hih Hp Hu Hfirst Hlast Hdiv Herase Ha low step start.
  pose proof (Hu _ (proj1 Hfirst)) as Hf16. unfold u16 in Hf16.
  assert (Hin : start ∈ py_range low (last + 1) step).
  { apply page_start_in_walk; [unfold step; lia | lia | exact Hdiv | | exact Ha].
    apply Z.mod_mul. lia. }
  assert (Hal : start `mod` page = 0) by (apply Z.mod_mul; lia).
  split; [|split; [|exact map_pages_divisible]].
  2:{ unfold start. pose proof (Z.mod_pos_bound a page ltac:(lia)).
      pose proof (Z.div_mod a page ltac:(lia)). lia. }
  destruct (list_elem_of_split _ _ Hin) as (w1 & w2 & Hsplit).
  assert (Hbelow : Forall (fun addr => addr < start) w1).
  { pose proof (py_range_ascending (Z.to_nat (last + 1 - low)) low (last + 1) step
                  ltac:(unfold step; lia) ltac:(lia)) as Hs.
    rewrite Hsplit in Hs. apply Forall_forall. intros x Hx.
    apply (StronglySorted_app_1_elem_of Z.lt w1 (start :: w2) x start Hs Hx). left. }
  assert (Hrun : mem2boot ih page erase s
                 = (Ok tt, emit s (walk_records o page erase low last))).
  { rewrite (mem2boot_run ih o) by assumption. unfold records.
    destruct (sorted_keys (buf o)) as [|f rest] eqn:E.
    - apply sorted_keys_nil in E. destruct Hfirst as [[x Hx] _].
      rewrite E, lookup_empty in Hx. discriminate Hx.
    - apply sorted_keys_bounds in E as [Hf Hl].
      pose proof (lowest_populated_unique o f first Hf Hfirst) as ->.
      rewrite (highest_populated_unique o _ last Hl Hlast). reflexivity. }
  rewrite Hrun. unfold walk_records. fold step. rewrite Hsplit.
  rewrite !fmap_app, !fmap_cons, !concat_app. cbn [concat].
  unfold chunk at 2.
  rewrite bool_decide_eq_false_2 by (intros [?|?]; contradiction).
  exists w1, w2. case_bool_decide.
  - exists [], (Layout.Write start (chunk_data o step last start)
                ++ concat ((fun addr => chunk page erase addr (chunk_data o step last addr))
                             <$> w2)
                ++ Layout.Verify low last
                     (crc16 (concat (chunk_data o step last <$> w1)
                             ++ chunk_data o step last start
                             ++ concat (chunk_data o step last <$> w2)) 0)).
    split; [reflexivity|]. split; [exact Hbelow|].
    rewrite <- !app_assoc. reflexivity.
  - exists (chunk_data o step last start),
      (concat ((fun addr => chunk page erase addr (chunk_data o step last addr)) <$> w2)
       ++ Layout.Verify low last
            (crc16 (concat (chunk_data o step last <$> w1)
                    ++ chunk_data o step last start
                    ++ concat (chunk_data o step last <$> w2)) 0)).
    split; [reflexivity|]. split; [exact Hbelow|].
    rewrite <- !app_assoc. reflexivity.
Qed.

Lemma mem2boot_erases_every_page_witness :
  let o := mkIntelHex (<[0x0201 := x11]> (<[0x0203 := x22]> ∅)) xff in
  0x0203 / 512 * 512 <= 0x0203 < 0x0203 / 512 * 512 + 512.
Proof.
  intros o.
  assert (Hk : sorted_keys (buf o) = [0x0201; 0x0203]) by (vm_compute; reflexivity).
  destruct (sorted_keys_bounds o _ _ Hk) as [Hlow Hhigh].
  assert (Hu : addresses_u16 o).
  { intros a Ha. apply elem_of_sorted_keys in Ha. rewrite Hk in Ha.
    apply elem_of_cons in Ha as [->|Ha]; [unfold u16; lia|].
    apply list_elem_of_singleton in Ha as ->. unfold u16; lia. }
  refine (proj1 (proj2 (mem2boot_erases_every_page 1%positive o 512 2
            (mkState [] {[ 1%positive := o ]}) 0x0201 0x0203 0x0203
            _ _ Hu Hlow Hhigh _ _ _)));
    first [reflexivity | lia | discriminate | (vm_compute; split; discriminate)].
Defined.

(** X11. [erase2boot] emits an Erase record for the page of every address
    of [start..stop]: each such address lies in a page whose first
    address is one of the Erase addresses; and every Erase address is a
    multiple of the page size. *)
Theorem erase2boot_covers_window (start stop page a : Z) (s : state) :
  u16 start -> u16 stop -> 1 <= page -> start <= a <= stop ->
  let pages := py_range (start / page * page) (stop + 1) page in
  erase2boot start stop page s
  = (Ok tt,
     emit s (concat ((fun addr => Layout.Erase addr []) <$> pages)
             ++ Layout.Verify start stop
                  (crc16 (replicate (Z.to_nat (stop - start + 1)) xff) 0)))
  /\ a / page * page ∈ pages
  /\ a / page * page <= a < a / page * page + page
  /\ forall addr, addr ∈ pages -> addr `mod` page = 0.
Proof.
  intros Hs He Hp Ha pages. unfold u16 in Hs, He.
  split; [apply erase2boot_run; (assumption || lia)|].
  split.
  { apply page_start_in_walk; [lia | lia | apply Z.mod_same; lia | | ].
    - apply Z.mod_mul. lia.
    - pose proof (page_floor_bounds start page ltac:(lia) Hp). lia. }
  split.
  { pose proof (Z.mod_pos_bound a page ltac:(lia)).
    pose proof (Z.div_mod a page ltac:(lia)). lia. }
  intros addr Hin. apply elem_of_py_range_iff in Hin as (i & _ & -> & _); [|lia].
  replace (start / page * page + i * page) with ((start / page + i) * page) by ring.
  apply Z.mod_mul. lia.
Qed.

Lemma erase2boot_covers_window_witness :
  0x0300 / 512 * 512 ∈ py_range (0x0100 / 512 * 512) (0x04ff + 1) 512.
Proof.
  refine (proj1 (proj2 (erase2boot_covers_window 0x0100 0x04ff 512 0x0300
                          (mkState [] ∅) _ _ _ _))); unfold u16; lia.
Defined.

End TranslatorsMore.

(** ** Sessions: without an image, with bad arguments, and what they leave *)

Section SessionMore.

Import Translate Session.

Lemma erase_regions_run (rs : list region) (s : state) :
  Forall (fun r : region => 0 <= r.1.1 /\ r.1.1 < r.1.2 <= 0xffff /\ 1 <= r.2) rs ->
  for_each rs (fun '(start, stop, page) => erase2boot start stop page) s
  = (Ok tt, emit s (concat (erase_range_records <$> rs))).
Proof.
  intros Hrs. revert s.
  induction Hrs as [|[[start stop] page] rs (H1 & H2 & H3) _ IH]; intros s.
  - cbn. rewrite emit_nil. reflexivity.
  - cbn [fst snd] in *. cbn [for_each].
    erewrite bind_ok by (apply erase2boot_run; unfold u16; lia).
    rewrite IH, emit_app. reflexivity.
Qed.

(** X12. A session without a hex file, for arguments the command line
    lets through, completes and touches no object. Without a lock value
    it writes the opening records, a range erase (Erase per page, then
    Verify) of every planned region in order, and the closing records;
    with a lock value it writes no Erase and no Verify record at all:
    opening records, Lock, and RunApp unless waiting is asked for. *)
Theorem hex2boot_without_image (args : Args) (s : state) :
  args_hexfile args = None -> args_ok args ->
  hex2boot args s
  = (Ok tt,
     emit s
       (opening args
        ++ match args_lock args with
           | None =>
               concat (erase_range_records
                         <$> get_regions (args_start args) (args_top args) (args_map args))
           | Some _ => []
           end
        ++ closing args)).
Proof.
  intros Hfile (Hids & Hbank & Hstart & Hlock).
  unfold hex2boot. cbv zeta. rewrite Hfile.
  erewrite bind_ok by (apply idents_run, Hids).
  erewrite bind_ok
    by (rewrite bin_setup_ok by (done || (unfold u16, keys_default; lia));
        apply brec_write_ok).
  rewrite emit_app. fold (opening args). unfold closing.
  destruct (args_lock args) as [lock|] eqn:El.
  - erewrite bind_ok by reflexivity.
    erewrite bind_ok
      by (rewrite bin_lock_ok by (apply Hlock; reflexivity); apply brec_write_ok).
    destruct (args_wait args).
    + cbn [ret]. rewrite emit_app, app_nil_r. reflexivity.
    + rewrite bin_runapp_ok by (unfold u16; lia).
      rewrite brec_write_ok, !emit_app. reflexivity.
  - erewrite bind_ok by (apply erase_regions_run, planned_regions_ok, Hstart).
    erewrite bind_ok by reflexivity.
    destruct (args_wait args).
    + cbn [ret]. rewrite emit_app, !app_nil_r. reflexivity.
    + rewrite bin_runapp_ok by (unfold u16; lia).
      rewrite brec_write_ok, !emit_app. reflexivity.
Qed.

Lemma hex2boot_without_image_witness :
  hex2boot (mkArgs None 1 2 [] (Some 0x00a5) None 0 0xFFFF true) (mkState [] ∅)
  = (Ok tt, mkState (Layout.Setup keys_default 1 ++ Layout.Lock 0x00a5) ∅).
Proof.
  refine (hex2boot_without_image
            (mkArgs None 1 2 [] (Some 0x00a5) None 0 0xFFFF true) (mkState [] ∅) _ _);
    [reflexivity|].
  split; [constructor|]. split; [cbn; lia|]. split; [cbn; lia|].
  intros lock [= <-]. unfold u16. lia.
Defined.

Lemma idents_raise (good rest : list Z) (bad : Z) (s : state) :
  Forall u16 good -> ~ u16 bad ->
  for_each (good ++ bad :: rest) (fun blid => brec_write (bin_ident blid)) s
  = (Raise struct_error, emit s (concat (Layout.Identity <$> good))).
Proof.
  intros Hg Hb. revert s. induction Hg as [|blid good Hok _ IH]; intros s.
  - cbn [app for_each fmap list_fmap concat]. rewrite emit_nil.
    assert (E : bin_ident bad = None).
    { apply eq_None_not_Some. rewrite bin_ident_some. exact Hb. }
    rewrite E. reflexivity.
  - cbn [app for_each]. erewrite bind_ok
      by (rewrite bin_ident_ok by exact Hok; apply brec_write_ok).
    rewrite IH, emit_app. reflexivity.
Qed.

(** X13. An identity value that does not fit 16 bits (a negative one gets
    past the command line) makes the session raise [struct.error] at that
    value: the Identity records of the values before it are already
    written, nothing else is, not even the Setup record, and no object is
    created. *)
Theorem hex2boot_bad_identity (args : Args) (good rest : list Z) (bad : Z) (s : state) :
  args_id args = good ++ bad :: rest -> Forall u16 good -> ~ u16 bad ->
  hex2boot args s
  = (Raise struct_error, emit s (concat (Layout.Identity <$> good))).
Proof.
  intros Hid Hg Hb. unfold hex2boot. cbv zeta. rewrite Hid.
  apply bind_raise. apply idents_raise; assumption.
Qed.

Lemma hex2boot_bad_identity_witness :
  hex2boot (mkArgs None 0 2 [0x0001; -1; 0x0002] None None 0 0xFFFF false)
           (mkState [] ∅)
  = (Raise struct_error, mkState (Layout.Identity 0x0001) ∅).
Proof.
  refine (hex2boot_bad_identity
            (mkArgs None 0 2 [0x0001; -1; 0x0002] None None 0 0xFFFF false)
            [0x0001] [0x0002] (-1) (mkState [] ∅) _ _ _).
  - reflexivity.
  - repeat constructor; unfold u16; lia.
  - unfold u16. lia.
Defined.

(** X14. A lock value that does not fit 16 bits is only met after the
    opening records are in the output: a session without a hex file
    raises [struct.error] at the Lock record and leaves the Identity and
    Setup records written, with no Lock and no RunApp record. *)
Theorem hex2boot_bad_lock (args : Args) (lock : Z) (s : state) :
  args_hexfile args = None -> args_lock args = Some lock -> ~ u16 lock ->
  Forall u16 (args_id args) -> 0 <= args_bank args <= 0xff ->
  hex2boot args s = (Raise struct_error, emit s (opening args)).
Proof.
  intros Hfile Hlock Hbad Hids Hbank.
  unfold hex2boot. cbv zeta. rewrite Hfile, Hlock.
  erewrite bind_ok by (apply idents_run, Hids).
  erewrite bind_ok
    by (rewrite bin_setup_ok by (done || (unfold u16, keys_default; lia));
        apply brec_write_ok).
  rewrite emit_app. fold (opening args).
  erewrite bind_ok by reflexivity.
  apply bind_raise.
  assert (E : bin_lock lock = None).
  { apply eq_None_not_Some. rewrite bin_lock_some. exact Hbad. }
  rewrite E. reflexivity.
Qed.

Lemma hex2boot_bad_lock_witness :
  hex2boot (mkArgs None 0 2 [] (Some (-1)) None 0 0xFFFF false) (mkState [] ∅)
  = (Raise struct_error, mkState (Layout.Setup keys_default 0) ∅).
Proof.
  refine (hex2boot_bad_lock (mkArgs None 0 2 [] (Some (-1)) None 0 0xFFFF false)
            (-1) (mkState [] ∅) _ _ _ _ _); try reflexivity.
  - unfold u16. lia.
  - constructor.
  - cbn. lia.
Defined.

End SessionMore.

(** ** What a session does to the output and to the objects *)

Section Effects.

Import Translate Session.

(** X16. No session, with or without a hex file, with good or bad
    arguments, completing or raising, changes or removes an object that
    was alive before it; and neither does a translator run on its own. *)
Theorem hex2boot_keeps_all_objects (args : Args) (s : state) (l : loc) (o : IntelHex) :
  heap s !! l = Some o ->
  heap (hex2boot args s).2 !! l = Some o
  /\ (forall ih page erase, heap (mem2boot ih page erase s).2 !! l = Some o)
  /\ (forall start stop page, heap (erase2boot start stop page s).2 !! l = Some o).
Proof.
  intros Hl.
  assert (Hk : forall (m : M unit), keeps (heap s) m (fun _ => True) ->
                 heap (m s).2 !! l = Some o).
  { intros m Hm. destruct (Hm s) as [Hsub _]; [reflexivity|].
    exact (lookup_weaken _ _ _ _ Hl Hsub). }
  split; [apply Hk, keeps_hex2boot|]. split.
  - intros ih page erase. apply Hk, keeps_mem2boot.
  - intros start stop page. apply Hk, keeps_erase2boot.
Qed.

Lemma hex2boot_keeps_all_objects_witness :
  heap (hex2boot (mkArgs None 0 2 [] None None 0 0x0400 false)
          (mkState [] {[ 7%positive := image_of [(0, x20)] ]})).2 !! 7%positive
  = Some (image_of [(0, x20)]).
Proof.
  refine (proj1 (hex2boot_keeps_all_objects
                   (mkArgs None 0 2 [] None None 0 0x0400 false)
                   (mkState [] {[ 7%positive := image_of [(0, x20)] ]})
                   7%positive (image_of [(0, x20)]) _)).
  reflexivity.
Defined.

Lemma IntelHex_eta (img : IntelHex) : mkIntelHex (buf img) (padding img) = img.
Proof. destruct img. reflexivity. Qed.

(** X17. When the failsafe rule does not apply (the bank is not 0, or the
    start address is not 0, or the image already reads 0xFF at address
    0), a session on an image translates the image as supplied, byte for
    byte, and emits no restoring Write record: opening records, the
    translation of each planned view of the image, closing records. *)
Theorem hex2boot_without_override (args : Args) (source : loc) (img : IntelHex)
    (s : state) :
  args_hexfile args = Some source -> heap s !! source = Some img ->
  IntelHex_wf img -> args_ok args ->
  args_bank args <> 0 \/ args_start args <> 0 \/ reset_vector img = xff ->
  exists s',
    hex2boot args s = (Ok tt, s')
    /\ brec s'
       = brec s ++ opening args
         ++ concat ((fun r : region =>
                       records (slice_of img r.1.1 r.1.2) r.2 (args_erase args))
                      <$> get_regions (args_start args) (args_top args) (args_map args))
         ++ closing args
    /\ heap s' !! fresh (dom (heap s)) = Some img.
Proof.
  intros Hfile Hsrc Hwf Hok Hno.
  destruct (hex2boot_image_run args source img s Hfile Hsrc Hwf Hok)
    as (s' & Hrun & Hb & Hh).
  assert (Hov : override args img = false).
  { unfold override, failsafe. destruct Hno as [H|[H|H]].
    - rewrite (bool_decide_eq_false_2 _ H). reflexivity.
    - rewrite (bool_decide_eq_false_2 _ H). apply andb_false_iff. left.
      apply andb_false_r.
    - rewrite (bool_decide_eq_true_2 _ H). apply andb_false_r. }
  exists s'. split; [exact Hrun|].
  unfold main_translation, restore, working_image in Hb, Hh.
  rewrite Hov, IntelHex_eta in Hb, Hh. split; [|exact Hh].
  rewrite Hb. reflexivity.
Qed.

Lemma hex2boot_without_override_witness :
  exists s',
    hex2boot (mkArgs (Some 1%positive) 1 2 [] None None 0 0xFFFF true)
             (mkState [] {[ 1%positive := image_of [(0, x20)] ]}) = (Ok tt, s')
    /\ brec s'
       = [] ++ opening (mkArgs (Some 1%positive) 1 2 [] None None 0 0xFFFF true)
         ++ concat ((fun r : region =>
                       records (slice_of (image_of [(0, x20)]) r.1.1 r.1.2) r.2 2)
                      <$> get_regions 0 0xFFFF None)
         ++ closing (mkArgs (Some 1%positive) 1 2 [] None None 0 0xFFFF true)
    /\ heap s' !! fresh (dom (heap (mkState [] {[ 1%positive := image_of [(0, x20)] ]})))
       = Some (image_of [(0, x20)]).
Proof.
  refine (hex2boot_without_override
            (mkArgs (Some 1%positive) 1 2 [] None None 0 0xFFFF true)
            1%positive (image_of [(0, x20)])
            (mkState [] {[ 1%positive := image_of [(0, x20)] ]}) _ _ _ _ _).
  - reflexivity.
  - reflexivity.
  - apply image_of_wf. repeat constructor; cbn; lia.
  - split; [constructor|]. split; [cbn; lia|]. split; [cbn; lia|].
    intros lock [=].
  - left. cbn. lia.
Defined.

(** X18. The view [hex2boot] translates for a planned region
    [(start, stop, page)] holds exactly the populated addresses of the
    image with [start <= a < stop], with their bytes, and pads with 0xFF
    whatever the padding of the image. *)
Theorem planned_view_content (o : IntelHex) (org top : Z) (type : option string)
    (r : region) (a : Z) :
  IntelHex_wf o -> 0 <= org -> r ∈ get_regions org top type ->
  buf (slice_of o r.1.1 r.1.2) !! a
  = (if decide (r.1.1 <= a < r.1.2) then buf o !! a else None)
  /\ padding (slice_of o r.1.1 r.1.2) = xff.
Proof.
  intros Hwf Horg Hr.
  pose proof (get_regions_of_ok org top (regions type) Horg (regions_ok type)) as H.
  rewrite Forall_forall in H. destruct (H r Hr) as (H1 & H2 & _).
  split; [apply slice_of_lookup; [exact Hwf | lia | lia] | apply slice_of_padding].
Qed.

Lemma planned_view_content_witness :
  buf (slice_of (image_of [(0x0010, x20)]) 0x0000 0x3DFF) !! 0x0010
  = (if decide (0x0000 <= 0x0010 < 0x3DFF)
     then buf (image_of [(0x0010, x20)]) !! 0x0010 else None).
Proof.
  refine (proj1 (planned_view_content (image_of [(0x0010, x20)]) 0 0xFFFF
                   (Some "bb2"%string) (0x0000, 0x3DFF, 512) 0x0010 _ _ _)).
  - apply image_of_wf. repeat constructor; cbn; lia.
  - lia.
  - vm_compute. left.
Defined.

End Effects.
